(** * portainer-stack-utils, package [common]: name resolution and access control

    A shallow embedding of [common/utils.go]: the generic value selector
    ([selectValue]), the type structure renderer ([repr], [GetFormatHelp]),
    the entity resolvers, the swarm cluster resolver and the access-control
    decorator, followed by the properties the specification states about
    them.

    Conventions of the embedding.
    - A Go function returning [(T, error)] returns a pair [T * option error]:
      Go always hands back both components, and one resolver depends on it.
    - A function that can stop with a run-time panic returns [exec (T * option
      error)]: either [Returns] with the pair or [Panics] with the cause.
    - The API client is a record of the operations this package calls; its
      answers are fixed for the duration of one resolver call. *)

From stdpp Require Import gmap strings list pretty.

Set Warnings "-register-all".
Set Default Proof Using "Type".

(** ** Errors *)

(** Go's [error] interface as seen from this package: either a value of the
    package's own type [Error] (a string), or an error value of some other
    dynamic type produced by a collaborator (transport, decoding).  Equality is
    Go's interface equality: same dynamic type and same payload. *)
Inductive error :=
| Error (msg : string)
| ForeignError (msg : string).

#[global] Instance error_eq_dec : EqDecision error.
Proof. solve_decision. Defined.

Definition ErrStackNotFound := Error "Stack not found".
Definition ErrStackClusterNotFound := Error "Stack cluster not found".
Definition ErrEndpointNotFound := Error "Endpoint not found".
Definition ErrEndpointGroupNotFound := Error "Endpoint group not found".
Definition ErrSeveralEndpointsAvailable := Error "Several endpoints available".
Definition ErrNoEndpointsAvailable := Error "No endpoints available".
Definition ErrUserNotFound := Error "User not found".
Definition ErrAccessControlNotFound := Error "Access control not found".

Definition valueNotFoundError := Error "Value not found".

(** ** Untyped JSON documents *)

(** What [encoding/json] stores in an [interface{}]: [nil] for null, [bool],
    [float64] (kept as its 64-bit pattern; no operation here looks inside),
    [string], [[]interface{}] and [map[string]interface{}]. *)
Inductive value :=
| VNil
| VBool (b : bool)
| VNumber (bits : Z)
| VString (s : string)
| VArray (l : list value)
| VMap (m : gmap string value).

(** The dynamic types a type assertion of this package asks for. *)
Inductive asserted := AssertMap | AssertString.

(** Run-time panics the package can raise. *)
Inductive panic :=
| IndexOutOfRange
| InterfaceConversion (held : value) (wanted : asserted).

Inductive exec (A : Type) :=
| Returns (a : A)
| Panics (p : panic).
Arguments Returns {A} a.
Arguments Panics {A} p.

Definition exec_bind {A B} (x : exec A) (k : A -> exec B) : exec B :=
  match x with
  | Returns a => k a
  | Panics p => Panics p
  end.

(** ** Generic value selector *)

(** [jsonMap[jsonPath[0]]] yields the zero value [nil] for an absent key, so
    the [value == nil] test cannot tell an absent key from a null one.  The
    type assertion [value.(map[string]interface{})] has no comma-ok form and
    panics on any other dynamic type. *)
Fixpoint selectValue (jsonMap : gmap string value) (jsonPath : list string)
  : exec (value * option error) :=
  match jsonPath with
  | [] => Panics IndexOutOfRange
  | key :: rest =>
      let value := default VNil (jsonMap !! key) in
      match value with
      | VNil => Returns (VNil, Some valueNotFoundError)
      | _ =>
          match rest with
          | _ :: _ => (* len(jsonPath) > 1 *)
              match value with
              | VMap m => selectValue m rest
              | _ => Panics (InterfaceConversion value AssertMap)
              end
          | [] => Returns (value, None)
          end
      end
  end.

(** *** The manual walk the specification compares against *)

(** One step of descending by hand: the current value must be a mapping and
    the key is looked up in it. *)
Definition descend (cur : option value) (key : string) : option value :=
  match cur with
  | Some (VMap m) => m !! key
  | _ => None
  end.

(** Descending the mapping one key at a time, left to right. *)
Definition walk (m : gmap string value) (path : list string) : option value :=
  foldl descend (Some (VMap m)) path.

(** Some key along the path is absent: the walk reaches a mapping that has no
    binding for the next key. *)
Definition keyAbsent (m : gmap string value) (path : list string) : Prop :=
  exists before key after m',
    path = before ++ key :: after /\
    walk m before = Some (VMap m') /\ m' !! key = None.

(** Some key along the path is bound to null. *)
Definition keyNull (m : gmap string value) (path : list string) : Prop :=
  exists before key after m',
    path = before ++ key :: after /\
    walk m before = Some (VMap m') /\ m' !! key = Some VNil.

Definition isMap (v : value) : Prop := exists m, v = VMap m.

(** Every intermediate value the walk traverses (reached by a key that is not
    the last one) is a nested mapping. *)
Definition intermediatesAreMaps (m : gmap string value) (path : list string) : Prop :=
  forall before key after v,
    path = before ++ key :: after -> after <> [] ->
    walk m (before ++ [key]) = Some v -> isMap v.

(** ** Type structure renderer *)

Module reflect.

(** [reflect.Kind]. *)
Inductive Kind :=
| Invalid | Bool | Int | Int8 | Int16 | Int32 | Int64
| Uint | Uint8 | Uint16 | Uint32 | Uint64 | Uintptr
| Float32 | Float64 | Complex64 | Complex128
| Array | Chan | Func | Interface | Map | Pointer | Slice
| String | Struct | UnsafePointer.

(** The two members of [reflect.StructField] the renderer reads. *)
Record StructField (T : Type) := { Name : string; Type_ : T }.
Arguments Name {T} _.
Arguments Type_ {T} _.

(** The methods of the interface [reflect.Type] the renderer calls.  A type
    description is a node of the program's type graph; [Field] and [Elem]
    lead to further nodes, and nothing here prevents the graph from having
    cycles. *)
Class RType (T : Type) := {
  kind : T -> Kind;
  name : T -> string;
  pkgPath : T -> string;
  numField : T -> nat;
  field : T -> nat -> StructField T;
  elem : T -> T
}.

End reflect.

Definition newline : string := String (Ascii.ascii_of_nat 10) "".

(** [fmt.Sprintln] of one string operand. *)
Definition Sprintln (s : string) : string := s +:+ newline.

(** The loop [for i := 0; i < t.NumField(); i++ { r += ... }] over the field
    indices still to visit; [line i] renders the text appended for field [i],
    and fails when the nested rendering does. *)
Fixpoint appendFields (line : nat -> option string) (indices : list nat) (r : string)
  : option string :=
  match indices with
  | [] => Some r
  | i :: later =>
      match line i with
      | Some s => appendFields line later (r +:+ s)
      | None => None
      end
  end.

(** [repr] recurses along the type graph, which need not be well founded, so
    the embedding bounds the recursion depth: [None] means the bound was
    reached before the rendering was complete. *)
Fixpoint repr `{reflect.RType T} (depth : nat) (t : T) (margin beforeMargin : string)
  : option string :=
  match depth with
  | 0 => None
  | S depth =>
      match reflect.kind t with
      | reflect.Struct =>
          let line i :=
            let tField := reflect.field t i in
            match repr depth (reflect.Type_ tField) margin (beforeMargin +:+ margin) with
            | Some s =>
                Some (Sprintln (beforeMargin +:+ margin +:+ reflect.Name tField +:+ " " +:+ s))
            | None => None
            end in
          match appendFields line (seq 0 (reflect.numField t)) (Sprintln "{") with
          | Some r => Some (r +:+ (beforeMargin +:+ "}"))
          | None => None
          end
      | reflect.Array | reflect.Slice =>
          match repr depth (reflect.elem t) margin beforeMargin with
          | Some s => Some ("[]" +:+ s)
          | None => None
          end
      | _ => Some (reflect.name t)
      end
  end.

(** [GetFormatHelp], from the type [reflect.TypeOf(v)] on. *)
Definition GetFormatHelp `{reflect.RType T} (depth : nat) (typeOfV : T) : option string :=
  match repr depth typeOfV "  " "  " with
  | Some s =>
      Some (newline +:+ "Format:" +:+ newline
            +:+ "  The --format flag accepts a Go template, which is passed a "
            +:+ reflect.pkgPath typeOfV +:+ "." +:+ reflect.name typeOfV +:+ " object:"
            +:+ newline +:+ newline
            +:+ ("  " +:+ s) +:+ newline)
  | None => None
  end.

(** A type graph is finite and acyclic when its nodes can be ranked so that
    every field type and every element type ranks strictly below its parent. *)
Definition acyclic `{reflect.RType T} (rank : T -> nat) : Prop :=
  forall t,
    match reflect.kind t with
    | reflect.Struct =>
        forall i, i < reflect.numField t -> rank (reflect.Type_ (reflect.field t i)) < rank t
    | reflect.Array | reflect.Slice => rank (reflect.elem t) < rank t
    | _ => True
    end.

(** A small type graph for examples: a record with an integer, a string and a
    sequence of strings. *)
Inductive sampleType := tyGroup | tyGroupID | tyString | tyStrings.

#[global] Instance sampleType_reflect : reflect.RType sampleType := {|
  reflect.kind t :=
    match t with
    | tyGroup => reflect.Struct
    | tyGroupID => reflect.Int
    | tyString => reflect.String
    | tyStrings => reflect.Slice
    end;
  reflect.name t :=
    match t with
    | tyGroup => "EndpointGroup"
    | tyGroupID => "EndpointGroupID"
    | tyString => "string"
    | tyStrings => ""
    end;
  reflect.pkgPath t :=
    match t with
    | tyGroup | tyGroupID => "github.com/portainer/portainer/api"
    | _ => ""
    end;
  reflect.numField t := match t with tyGroup => 3 | _ => 0 end;
  reflect.field t i :=
    match i with
    | 0 => {| reflect.Name := "ID"; reflect.Type_ := tyGroupID |}
    | 1 => {| reflect.Name := "Name"; reflect.Type_ := tyString |}
    | _ => {| reflect.Name := "Tags"; reflect.Type_ := tyStrings |}
    end;
  reflect.elem t := tyString
|}.

Definition sampleRank (t : sampleType) : nat :=
  match t with
  | tyGroup => 2
  | tyStrings => 1
  | _ => 0
  end.

(** [u] is a type the renderer descends into from [t]: the type of one of the
    fields of a record, or the element type of an array or slice. *)
Definition child `{reflect.RType T} (t u : T) : Prop :=
  match reflect.kind t with
  | reflect.Struct =>
      exists i, i < reflect.numField t /\ u = reflect.Type_ (reflect.field t i)
  | reflect.Array | reflect.Slice => u = reflect.elem t
  | _ => False
  end.

(** A type description lies on a cycle when descending from it leads back to
    it. *)
Definition cyclic `{reflect.RType T} (t : T) : Prop := tc child t t.

(** A self-referential type graph: [type Node struct { Label string; Children
    []Node }]. *)
Inductive treeType := tyNode | tyNodes | tyLabel.

#[global] Instance treeType_reflect : reflect.RType treeType := {|
  reflect.kind t :=
    match t with
    | tyNode => reflect.Struct
    | tyNodes => reflect.Slice
    | tyLabel => reflect.String
    end;
  reflect.name t :=
    match t with
    | tyNode => "Node"
    | tyNodes => ""
    | tyLabel => "string"
    end;
  reflect.pkgPath t := match t with tyNode => "main" | _ => "" end;
  reflect.numField t := match t with tyNode => 2 | _ => 0 end;
  reflect.field t i :=
    match i with
    | 0 => {| reflect.Name := "Label"; reflect.Type_ := tyLabel |}
    | _ => {| reflect.Name := "Children"; reflect.Type_ := tyNodes |}
    end;
  reflect.elem t := tyNode
|}.

(** ** Entities of the Portainer API *)

(** Modelled from the spec: the entity types come from the package
    [github.com/portainer/portainer/api], which is not part of the sources;
    each record keeps the members the specification's data model lists.
    Identifiers are Go [int]s. *)
Module Endpoint.
Record t := mk { ID : Z; Name : string; Type_ : Z }.
Definition zero : t := mk 0 "" 0.
End Endpoint.

Module EndpointGroup.
Record t := mk { ID : Z; Name : string }.
Definition zero : t := mk 0 "".
End EndpointGroup.

Module Stack.
Record t := mk { ID : Z; Name : string; EndpointID : Z; SwarmID : string }.
Definition zero : t := mk 0 "" 0 "".
End Stack.

Module User.
Record t := mk { ID : Z; Username : string }.
Definition zero : t := mk 0 "".
End User.

(** Modelled from the spec: [portainer.ResourceControl], an identifier plus
    ownership and permission metadata. *)
Module ResourceControl.
Record t := mk {
  ID : Z;
  ResourceID : string;
  SubResourceIDs : list string;
  Type_ : Z;
  Public : bool;
  UserAccesses : list Z;
  TeamAccesses : list Z
}.
Definition zero : t := mk 0 "" [] 0 false [] [].
End ResourceControl.

(** [portainerDecoratedDockerResource]: the access control sits under the
    namespacing member [Portainer]. *)
Record portainerNamespace := { ResourceControl : ResourceControl.t }.
Record portainerDecoratedDockerResource := { Portainer : portainerNamespace }.

(** [decoratedStack]: the embedded [portainer.Stack] and the access control as
    a direct member. *)
Record decoratedStack := {
  ds_Stack : Stack.t;
  ds_ResourceControl : ResourceControl.t
}.

Definition pddr_zero : portainerDecoratedDockerResource :=
  {| Portainer := {| ResourceControl := ResourceControl.zero |} |}.
Definition ds_zero : decoratedStack :=
  {| ds_Stack := Stack.zero; ds_ResourceControl := ResourceControl.zero |}.

Definition pddr_hasAccessControl (ddr : portainerDecoratedDockerResource) : bool :=
  negb (ResourceControl.ID (ResourceControl (Portainer ddr)) =? 0)%Z.

Definition ds_hasAccessControl (ds : decoratedStack) : bool :=
  negb (ResourceControl.ID (ds_ResourceControl ds) =? 0)%Z.

(** ** The API client *)

(** Modelled from the spec: the package [client] is not part of the sources.
    [StackListOptions] carries the two filters; [PortainerClient] lists the
    operations this package calls, each answering with Go's pair of a value and
    an error.  [DoJSONWithToken] decodes into a caller-supplied target and is
    called at two target types, hence two members; both take the request path,
    the method and the target as it was before the call (the headers are
    always empty and the body always nil). *)
Record StackListFilter := { SwarmID : string; EndpointID : Z }.
Record StackListOptions := { Filter : StackListFilter }.

Record PortainerClient := {
  EndpointList : list Endpoint.t * option error;
  EndpointGroupList : list EndpointGroup.t * option error;
  StackList : StackListOptions -> list Stack.t * option error;
  UserList : list User.t * option error;
  EndpointDockerInfo : Z -> gmap string value * option error;
  DoJSONWithToken_DockerResource :
    string -> string -> portainerDecoratedDockerResource ->
    portainerDecoratedDockerResource * option error;
  DoJSONWithToken_Stack :
    string -> string -> decoratedStack -> decoratedStack * option error
}.

Definition MethodGet : string := "GET".

(** ** Resolvers *)

(** [for _, x := range xs { if p x { return x } }]: the element the loop
    returns, if it returns from inside. *)
Fixpoint rangeFirst {A} (p : A -> bool) (xs : list A) : option A :=
  match xs with
  | [] => None
  | x :: later => if p x then Some x else rangeFirst p later
  end.

(** Lines 171-177 of [GetEndpointSwarmClusterID]: what becomes of the
    selector's answer.  [id.(string)] panics on any other dynamic type. *)
Definition clusterIDOfSelection (selection : value * option error)
  : exec (string * option error) :=
  let '(id, selectionErr) := selection in
  match selectionErr with
  | None =>
      match id with
      | VString s => Returns (s, None)
      | _ => Panics (InterfaceConversion id AssertString)
      end
  | Some e =>
      if decide (e = valueNotFoundError)
      then Returns ("", Some ErrStackClusterNotFound)
      else Returns ("", Some e)
  end.

Definition GetEndpointFromListByID (endpoints : list Endpoint.t) (id : Z)
  : Endpoint.t * option error :=
  match rangeFirst (fun e => (Endpoint.ID e =? id)%Z) endpoints with
  | Some e => (e, None)
  | None => (Endpoint.zero, Some ErrEndpointNotFound)
  end.

Definition GetEndpointFromListByName (endpoints : list Endpoint.t) (name : string)
  : Endpoint.t * option error :=
  match rangeFirst (fun e => String.eqb (Endpoint.Name e) name) endpoints with
  | Some e => (e, None)
  | None => (Endpoint.zero, Some ErrEndpointNotFound)
  end.

Section Resolvers.

(** [common.GetClient] is not part of the sources: it answers with the
    client or an error. *)
Variable GetClient : PortainerClient * option error.

Definition GetDefaultEndpoint : Endpoint.t * option error :=
  let '(portainerClient, err) := GetClient in
  match err with
  | Some _ => (Endpoint.zero, err)
  | None =>
      let '(endpoints, err) := EndpointList portainerClient in
      match err with
      | Some _ => (Endpoint.zero, err)
      | None =>
          if length endpoints =? 0 then (Endpoint.zero, Some ErrNoEndpointsAvailable)
          else if 1 <? length endpoints then (Endpoint.zero, Some ErrSeveralEndpointsAvailable)
          else (default Endpoint.zero (endpoints !! 0), None)
      end
  end.

Definition GetStackByName (name swarmID : string) (endpointID : Z)
  : Stack.t * option error :=
  let '(portainerClient, err) := GetClient in
  match err with
  | Some _ => (Stack.zero, err)
  | None =>
      let '(stacks, err) :=
        StackList portainerClient
          {| Filter := {| SwarmID := swarmID; EndpointID := endpointID |} |} in
      match err with
      | Some _ => (Stack.zero, err)
      | None =>
          match rangeFirst (fun stack => String.eqb (Stack.Name stack) name) stacks with
          | Some stack => (stack, None)
          | None => (Stack.zero, Some ErrStackNotFound)
          end
      end
  end.

Definition GetEndpointByName (name : string) : Endpoint.t * option error :=
  let '(portainerClient, err) := GetClient in
  match err with
  | Some _ => (Endpoint.zero, err)
  | None =>
      let '(endpoints, err) := EndpointList portainerClient in
      match err with
      | Some _ => (Endpoint.zero, err)
      | None =>
          match rangeFirst (fun endpoint => String.eqb (Endpoint.Name endpoint) name)
                  endpoints with
          | Some endpoint => (endpoint, None)
          | None => (Endpoint.zero, Some ErrEndpointNotFound)
          end
      end
  end.

Definition GetEndpointGroupByName (name : string) : EndpointGroup.t * option error :=
  let '(portainerClient, err) := GetClient in
  match err with
  | Some _ => (EndpointGroup.zero, err)
  | None =>
      let '(endpointGroups, err) := EndpointGroupList portainerClient in
      match err with
      | Some _ => (EndpointGroup.zero, err)
      | None =>
          match rangeFirst
                  (fun endpointGroup => String.eqb (EndpointGroup.Name endpointGroup) name)
                  endpointGroups with
          | Some endpointGroup => (endpointGroup, None)
          | None => (EndpointGroup.zero, Some ErrEndpointGroupNotFound)
          end
      end
  end.

Definition GetEndpointSwarmClusterID (endpointID : Z) : exec (string * option error) :=
  let '(portainerClient, err) := GetClient in
  match err with
  | Some _ => Returns ("", err)
  | None =>
      let '(result, err) := EndpointDockerInfo portainerClient endpointID in
      match err with
      | Some _ => Returns ("", err)
      | None =>
          exec_bind (selectValue result ["Swarm"; "Cluster"; "ID"]) clusterIDOfSelection
      end
  end.

(** The result of [UserList] is not tested: the loop runs over whatever list
    came back, a match returns the user together with that error, and no
    match overwrites the error. *)
Definition GetUserByName (name : string) : User.t * option error :=
  let '(portainerClient, err) := GetClient in
  match err with
  | Some _ => (User.zero, err)
  | None =>
      let '(users, err) := UserList portainerClient in
      match rangeFirst (fun listUser => String.eqb (User.Username listUser) name) users with
      | Some listUser => (listUser, err)
      | None => (User.zero, Some ErrUserNotFound)
      end
  end.

(** [resourceControlType] is a [client.ResourceType]; it enters only through
    its [%s] rendering, which is what the parameter holds. *)
Definition GetDockerResourcePortainerAccessControl
    (endpointID : Z) (resourceID : string) (resourceControlType : string)
  : ResourceControl.t * option error :=
  let '(portainerClient, err) := GetClient in
  match err with
  | Some _ => (ResourceControl.zero, err)
  | None =>
      let '(pddr, err) :=
        DoJSONWithToken_DockerResource portainerClient
          ("endpoints/" +:+ pretty endpointID +:+ "/docker/" +:+ resourceControlType
           +:+ "s/" +:+ resourceID)
          MethodGet pddr_zero in
      match err with
      | Some _ => (ResourceControl.zero, err)
      | None =>
          if pddr_hasAccessControl pddr
          then (ResourceControl (Portainer pddr), None)
          else (ResourceControl.zero, Some ErrAccessControlNotFound)
      end
  end.

Definition GetStackPortainerAccessControl (endpointID : Z) (stackName : string)
  : exec (ResourceControl.t * option error) :=
  exec_bind (GetEndpointSwarmClusterID endpointID) (fun '(endpointSwarmClusterID, err) =>
    if bool_decide (err <> None /\ err <> Some ErrStackClusterNotFound)
    then Returns (ResourceControl.zero, err)
    else
      let '(stack, err) := GetStackByName stackName endpointSwarmClusterID endpointID in
      match err with
      | Some _ => Returns (ResourceControl.zero, err)
      | None =>
          let '(portainerClient, err) := GetClient in
          match err with
          | Some _ => Returns (ResourceControl.zero, err)
          | None =>
              let '(ds, err) :=
                DoJSONWithToken_Stack portainerClient
                  ("stacks/" +:+ pretty (Stack.ID stack)) MethodGet ds_zero in
              match err with
              | Some _ => Returns (ResourceControl.zero, err)
              | None =>
                  if ds_hasAccessControl ds
                  then Returns (ds_ResourceControl ds, None)
                  else Returns (ResourceControl.zero, Some ErrAccessControlNotFound)
              end
          end
      end).

End Resolvers.

(** ** Sample collaborators *)

(** The endpoint collection of the specification's scenario. *)
Definition sampleEndpoints : list Endpoint.t :=
  [Endpoint.mk 1 "prod" 1; Endpoint.mk 2 "staging" 1].

Definition sampleAccessControl (id : Z) : ResourceControl.t :=
  ResourceControl.mk id "web" [] 6 false [1%Z] [].

(** A client that answers every list call, serves the given docker-info
    document, hands back stack 5 ("web") for any filter, and decorates every
    resource with an access control of the given identifier. *)
Definition sampleClient (info : gmap string value) (accessControlID : Z) : PortainerClient := {|
  EndpointList := (sampleEndpoints, None);
  EndpointGroupList := ([EndpointGroup.mk 1 "Unassigned"; EndpointGroup.mk 2 "edge"], None);
  StackList opts :=
    ([Stack.mk 4 "db" (EndpointID (Filter opts)) (SwarmID (Filter opts));
      Stack.mk 5 "web" (EndpointID (Filter opts)) (SwarmID (Filter opts))], None);
  UserList := ([User.mk 1 "admin"; User.mk 2 "alice"], None);
  EndpointDockerInfo _ := (info, None);
  DoJSONWithToken_DockerResource _ _ _ :=
    ({| Portainer := {| ResourceControl := sampleAccessControl accessControlID |} |}, None);
  DoJSONWithToken_Stack _ _ _ :=
    ({| ds_Stack := Stack.mk 5 "web" 1 "";
        ds_ResourceControl := sampleAccessControl accessControlID |}, None)
|}.

(** A client whose user listing fails in transport, as Go clients do: a nil
    slice together with the error. *)
Definition unreachableUsersClient : PortainerClient := {|
  EndpointList := (sampleEndpoints, None);
  EndpointGroupList := ([], None);
  StackList _ := ([], None);
  UserList := ([], Some (ForeignError "dial tcp: connection refused"));
  EndpointDockerInfo _ := (∅, None);
  DoJSONWithToken_DockerResource _ _ target := (target, None);
  DoJSONWithToken_Stack _ _ target := (target, None)
|}.

(** A client whose docker-info call fails in transport, and whose decoding
    calls fail after having filled the target with an access control. *)
Definition unreachableInfoClient : PortainerClient := {|
  EndpointList := (sampleEndpoints, None);
  EndpointGroupList := ([], None);
  StackList _ := ([Stack.mk 5 "web" 1 ""], None);
  UserList := ([User.mk 2 "alice"; User.mk 3 "bob"], Some (ForeignError "unexpected EOF"));
  EndpointDockerInfo _ := (∅, Some (ForeignError "context deadline exceeded"));
  DoJSONWithToken_DockerResource _ _ _ :=
    ({| Portainer := {| ResourceControl := sampleAccessControl 42 |} |},
     Some (ForeignError "unexpected EOF"));
  DoJSONWithToken_Stack _ _ _ :=
    ({| ds_Stack := Stack.mk 5 "web" 1 ""; ds_ResourceControl := sampleAccessControl 42 |},
     Some (ForeignError "unexpected EOF"))
|}.

Definition swarmDocument (id : value) : gmap string value :=
  {["Swarm" := VMap {["Cluster" := VMap {["ID" := id]}]}]}.

(** ** The access-control policy *)

(** The sentinel check on a decoded access control. *)
Definition sentinel (resourceControl : ResourceControl.t) : ResourceControl.t * option error :=
  if decide (ResourceControl.ID resourceControl = 0%Z)
  then (ResourceControl.zero, Some ErrAccessControlNotFound)
  else (resourceControl, None).

(** What [GetStackPortainerAccessControl] does once the cluster resolution let
    it through. *)
Definition stackAccessControl (GetClient : PortainerClient * option error)
    (stackName swarmID : string) (endpointID : Z) : ResourceControl.t * option error :=
  match GetStackByName GetClient stackName swarmID endpointID with
  | (_, Some e) => (ResourceControl.zero, Some e)
  | (stack, None) =>
      match GetClient with
      | (_, Some e) => (ResourceControl.zero, Some e)
      | (portainerClient, None) =>
          match DoJSONWithToken_Stack portainerClient
                  ("stacks/" +:+ pretty (Stack.ID stack)) MethodGet ds_zero with
          | (_, Some e) => (ResourceControl.zero, Some e)
          | (ds, None) => sentinel (ds_ResourceControl ds)
          end
      end
  end.

(** ** What "the first match" means *)

(** [x] is the first element of [xs], in collection order, that matches. *)
Definition firstMatching {A} (matches : A -> Prop) (xs : list A) (x : A) : Prop :=
  exists before after,
    xs = before ++ x :: after /\ matches x /\ forall y, y ∈ before -> ~ matches y.

(** A lookup [answer] over the collection [xs] resolves by first match: it is
    an element without error exactly for the first match, it is the zero value
    with the kind's not-found error exactly when nothing matches, and it is
    always one of the two. *)
Definition resolvesFirst {A} (matches : A -> Prop) (zero : A) (notFound : error)
    (xs : list A) (answer : A * option error) : Prop :=
  (forall x, answer = (x, None) <-> firstMatching matches xs x) /\
  (answer = (zero, Some notFound) <-> forall y, y ∈ xs -> ~ matches y) /\
  (answer = (zero, Some notFound) \/ exists x, answer = (x, None)).

(** * Properties *)

(** ** The manual walk *)

Lemma descend_None (path : list string) : foldl descend None path = None.
Proof. induction path as [|k path IH]; [done|]. exact IH. Qed.

Lemma walk_nil (m : gmap string value) : walk m [] = Some (VMap m).
Proof. done. Qed.

Lemma walk_cons (m : gmap string value) key path :
  walk m (key :: path) = foldl descend (m !! key) path.
Proof. done. Qed.

Lemma walk_snoc (m : gmap string value) path key :
  walk m (path ++ [key]) = descend (walk m path) key.
Proof. unfold walk. by rewrite foldl_app. Qed.

Lemma walk_cons_map (m m1 : gmap string value) key path :
  m !! key = Some (VMap m1) -> walk m (key :: path) = walk m1 path.
Proof. intros Hk. by rewrite walk_cons, Hk. Qed.

(** A walk of at least one key either ends at the first key or passes through
    a mapping bound to it. *)
Lemma walk_cons_inv (m : gmap string value) key path v :
  walk m (key :: path) = Some v ->
  (path = [] /\ m !! key = Some v) \/
  (path <> [] /\ exists m1, m !! key = Some (VMap m1) /\ walk m1 path = Some v).
Proof.
  rewrite walk_cons. destruct path as [|k2 path].
  - intros Hv. by left.
  - intros Hv. right. split; [done|].
    destruct (m !! key) as [[| | | | |m1]|]; simpl in Hv;
      try (rewrite descend_None in Hv; discriminate).
    by exists m1.
Qed.

(** ** Unfolding the path predicates along the first key *)

Lemma keyAbsent_cons (m : gmap string value) key rest :
  keyAbsent m (key :: rest) <->
  m !! key = None \/ exists m1, m !! key = Some (VMap m1) /\ keyAbsent m1 rest.
Proof.
  split.
  - intros (before & k & after & m' & Hpath & Hwalk & Hnone).
    destruct before as [|k0 before]; simpl in Hpath.
    + injection Hpath as -> ->. rewrite walk_nil in Hwalk.
      injection Hwalk as ->. by left.
    + injection Hpath as <- ->. right.
      apply walk_cons_inv in Hwalk as [[-> Hk]|[_ (m1 & Hk & Hw)]].
      * exists m'. split; [done|]. by exists [], k, after, m'.
      * exists m1. split; [done|]. by exists before, k, after, m'.
  - intros [Hnone|(m1 & Hk & before & k & after & m' & -> & Hwalk & Hnone)].
    + by exists [], key, rest, m.
    + exists (key :: before), k, after, m'. split; [done|].
      split; [|done]. by rewrite (walk_cons_map _ _ _ _ Hk).
Qed.

Lemma keyNull_cons (m : gmap string value) key rest :
  keyNull m (key :: rest) <->
  m !! key = Some VNil \/ exists m1, m !! key = Some (VMap m1) /\ keyNull m1 rest.
Proof.
  split.
  - intros (before & k & after & m' & Hpath & Hwalk & Hnull).
    destruct before as [|k0 before]; simpl in Hpath.
    + injection Hpath as -> ->. rewrite walk_nil in Hwalk.
      injection Hwalk as ->. by left.
    + injection Hpath as <- ->. right.
      apply walk_cons_inv in Hwalk as [[-> Hk]|[_ (m1 & Hk & Hw)]].
      * exists m'. split; [done|]. by exists [], k, after, m'.
      * exists m1. split; [done|]. by exists before, k, after, m'.
  - intros [Hnull|(m1 & Hk & before & k & after & m' & -> & Hwalk & Hnull)].
    + by exists [], key, rest, m.
    + exists (key :: before), k, after, m'. split; [done|].
      split; [|done]. by rewrite (walk_cons_map _ _ _ _ Hk).
Qed.

Lemma keyAbsent_nil (m : gmap string value) : ~ keyAbsent m [].
Proof. intros (before & k & after & m' & Hpath & _). by destruct before. Qed.

Lemma keyNull_nil (m : gmap string value) : ~ keyNull m [].
Proof. intros (before & k & after & m' & Hpath & _). by destruct before. Qed.

Lemma intermediatesAreMaps_head (m : gmap string value) key rest v :
  rest <> [] -> intermediatesAreMaps m (key :: rest) -> m !! key = Some v -> isMap v.
Proof. intros Hrest Hmaps Hk. by apply (Hmaps [] key rest v). Qed.

Lemma intermediatesAreMaps_tail (m m1 : gmap string value) key rest :
  intermediatesAreMaps m (key :: rest) -> m !! key = Some (VMap m1) ->
  intermediatesAreMaps m1 rest.
Proof.
  intros Hmaps Hk before k after v -> Hafter Hwalk.
  apply (Hmaps (key :: before) k after v); [done..|].
  simpl. by rewrite (walk_cons_map _ _ _ _ Hk).
Qed.

(** ** The selector, one key at a time *)

Lemma value_nil_dec (v : value) : {v = VNil} + {v <> VNil}.
Proof. destruct v; (by left) || (by right). Defined.

Lemma selectValue_absent (m : gmap string value) key rest :
  m !! key = None -> selectValue m (key :: rest) = Returns (VNil, Some valueNotFoundError).
Proof. intros Hk. simpl. by rewrite Hk. Qed.

Lemma selectValue_null (m : gmap string value) key rest :
  m !! key = Some VNil -> selectValue m (key :: rest) = Returns (VNil, Some valueNotFoundError).
Proof. intros Hk. simpl. by rewrite Hk. Qed.

Lemma selectValue_last (m : gmap string value) key v :
  m !! key = Some v -> v <> VNil -> selectValue m [key] = Returns (v, None).
Proof. intros Hk Hv. simpl. rewrite Hk. by destruct v. Qed.

Lemma selectValue_descend (m m1 : gmap string value) key rest :
  m !! key = Some (VMap m1) -> rest <> [] ->
  selectValue m (key :: rest) = selectValue m1 rest.
Proof. intros Hk Hrest. simpl. rewrite Hk. by destruct rest. Qed.

Lemma selectValue_not_a_map (m : gmap string value) key rest v :
  m !! key = Some v -> v <> VNil -> ~ isMap v -> rest <> [] ->
  selectValue m (key :: rest) = Panics (InterfaceConversion v AssertMap).
Proof.
  intros Hk Hnil Hmap Hrest. simpl. rewrite Hk.
  destruct rest; [done|]. destruct v; try done.
  destruct Hmap. by eexists.
Qed.

(** ** Generic value selector against the manual walk *)

(** C3, as amended.  For a non-empty path whose intermediate values are all
    nested mappings, [selectValue] answers "value not found" exactly when some
    key along the path is absent or bound to null; it answers a value without
    error exactly when the manual walk ends on that value and the value is not
    null; and it always does one of the two. *)
Theorem selectValue_walk (m : gmap string value) (path : list string) :
  path <> [] -> intermediatesAreMaps m path ->
  (selectValue m path = Returns (VNil, Some valueNotFoundError) <->
     keyAbsent m path \/ keyNull m path) /\
  (forall v, selectValue m path = Returns (v, None) <-> walk m path = Some v /\ v <> VNil) /\
  (selectValue m path = Returns (VNil, Some valueNotFoundError) \/
     exists v, selectValue m path = Returns (v, None)).
Proof.
  revert m. induction path as [|key rest IH]; [done|].
  intros m _ Hmaps.
  rewrite keyAbsent_cons, keyNull_cons.
  destruct (m !! key) as [v|] eqn:Hk.
  2:{ rewrite (selectValue_absent _ _ _ Hk). split; [|split].
      - split; [by left; left|done].
      - intros v. rewrite walk_cons, Hk, descend_None. split; [done|]. by intros [? _].
      - by left. }
  destruct rest as [|key2 rest].
  - (* the last key *)
    destruct (value_nil_dec v) as [->|Hv].
    + rewrite (selectValue_null _ _ _ Hk). split; [|split].
      * split; [by right; left|done].
      * intros v. rewrite walk_cons, Hk. simpl. split; [done|].
        intros [[= <-] Hne]. by destruct Hne.
      * by left.
    + rewrite (selectValue_last _ _ _ Hk Hv). split; [|split].
      * split; [done|].
        intros [[[=]|(m1 & _ & Habs)]|[[= ->]|(m1 & _ & Hnull)]].
        -- by apply keyAbsent_nil in Habs.
        -- done.
        -- by apply keyNull_nil in Hnull.
      * intros v'. rewrite walk_cons, Hk. simpl. split.
        -- by intros [= <-].
        -- by intros [[= <-] _].
      * right. by exists v.
  - (* an intermediate key *)
    destruct (intermediatesAreMaps_head m key (key2 :: rest) v) as [m1 ->]; [done..|].
    rewrite (selectValue_descend _ _ _ _ Hk) by done.
    rewrite (walk_cons_map _ _ _ _ Hk).
    destruct (IH m1) as (IHnf & IHv & IHtot);
      [done|by eapply intermediatesAreMaps_tail|].
    split; [|split]; [|done..].
    rewrite IHnf. split.
    + intros [Habs|Hnull]; [left|right]; right; by exists m1.
    + intros [[[=]|(m2 & [= <-] & Habs)]|[[=]|(m2 & [= <-] & Hnull)]]; (by left) || (by right).
Qed.

(** The claim C3 as written fails on a null leaf: with ["a"] bound to null the
    one-key path has no intermediate value and no absent key, yet the answer
    is "value not found". *)
Lemma selectValue_null_leaf_not_absent :
  ["a"] <> [] /\
  intermediatesAreMaps {["a" := VNil]} ["a"] /\
  selectValue {["a" := VNil]} ["a"] = Returns (VNil, Some valueNotFoundError) /\
  walk {["a" := VNil]} ["a"] = Some VNil /\
  ~ keyAbsent {["a" := VNil]} ["a"].
Proof.
  split; [done|]. split; [|split; [|split]].
  - intros before key after v Hpath Hafter _.
    destruct before as [|k0 [|k1 before]]; simpl in Hpath; [|done..].
    injection Hpath as _ <-. done.
  - by vm_compute.
  - by vm_compute.
  - rewrite keyAbsent_cons. intros [Hnone|(m1 & _ & Habs)].
    + by vm_compute in Hnone.
    + by apply keyAbsent_nil in Habs.
Qed.

Lemma selectValue_walk_witness :
  (selectValue {["Swarm" := VMap {["Cluster" := VMap {["ID" := VString "abc"]}]}]}
     ["Swarm"; "Cluster"; "ID"] = Returns (VNil, Some valueNotFoundError) <->
   keyAbsent {["Swarm" := VMap {["Cluster" := VMap {["ID" := VString "abc"]}]}]}
     ["Swarm"; "Cluster"; "ID"] \/
   keyNull {["Swarm" := VMap {["Cluster" := VMap {["ID" := VString "abc"]}]}]}
     ["Swarm"; "Cluster"; "ID"]) /\
  selectValue {["Swarm" := VMap {["Cluster" := VMap {["ID" := VString "abc"]}]}]}
    ["Swarm"; "Cluster"; "ID"] = Returns (VString "abc", None).
Proof.
  assert (Hmaps : intermediatesAreMaps
            {["Swarm" := VMap {["Cluster" := VMap {["ID" := VString "abc"]}]}]}
            ["Swarm"; "Cluster"; "ID"]).
  { intros before key after v Hpath Hafter Hwalk.
    destruct before as [|k0 [|k1 [|k2 [|k3 before]]]]; simpl in Hpath;
      simplify_eq; vm_compute in Hwalk; simplify_eq; by eexists. }
  split.
  - apply (selectValue_walk _ ["Swarm"; "Cluster"; "ID"]); [done|exact Hmaps].
  - by vm_compute.
Defined.

(** ** Null-bound keys *)

(** C10.  A key that is present but bound to null makes [selectValue] answer
    "value not found", whether it is the first key or one reached after
    descending through mappings, and whatever follows it in the path; the
    nested-mapping assertion is not reached, so the call does not panic. *)
Theorem selectValue_null_key (m m' : gmap string value) (before after : list string)
    (key : string) :
  walk m before = Some (VMap m') -> m' !! key = Some VNil ->
  selectValue m (before ++ key :: after) = Returns (VNil, Some valueNotFoundError) /\
  (forall p, selectValue m (before ++ key :: after) <> Panics p).
Proof.
  intros Hwalk Hnull.
  assert (Hsel : selectValue m (before ++ key :: after)
                 = Returns (VNil, Some valueNotFoundError)).
  { revert m Hwalk. induction before as [|k0 before IH]; intros m Hwalk.
    - rewrite walk_nil in Hwalk. injection Hwalk as ->.
      by apply selectValue_null.
    - apply walk_cons_inv in Hwalk as [[-> Hk]|[_ (m1 & Hk & Hw)]].
      + change (selectValue m (k0 :: [] ++ key :: after)
                = Returns (VNil, Some valueNotFoundError)).
        rewrite (selectValue_descend _ _ _ _ Hk) by done.
        by apply selectValue_null.
      + change (selectValue m (k0 :: before ++ key :: after)
                = Returns (VNil, Some valueNotFoundError)).
        rewrite (selectValue_descend _ _ _ _ Hk) by (by destruct before).
        by apply IH. }
  split; [done|]. intros p. by rewrite Hsel.
Qed.

Lemma selectValue_null_key_witness :
  selectValue {["Swarm" := VMap {["Cluster" := VNil]}]} (["Swarm"] ++ "Cluster" :: ["ID"])
  = Returns (VNil, Some valueNotFoundError).
Proof.
  apply (selectValue_null_key _ {["Cluster" := VNil]} ["Swarm"] ["ID"] "Cluster").
  - by vm_compute.
  - by vm_compute.
Defined.

(** ** Malformed documents *)

(** The selector panics where the walk meets a value that is neither null nor
    a mapping before the last key. *)
Lemma selectValue_shape (m : gmap string value) (before after : list string)
    (key : string) (v : value) :
  after <> [] -> walk m (before ++ [key]) = Some v -> v <> VNil -> ~ isMap v ->
  selectValue m (before ++ key :: after) = Panics (InterfaceConversion v AssertMap).
Proof.
  intros Hafter Hwalk Hnil Hmap.
  revert m Hwalk. induction before as [|k0 before IH]; intros m Hwalk.
  - simpl in Hwalk. rewrite walk_cons in Hwalk. simpl in Hwalk.
    by apply selectValue_not_a_map.
  - simpl in Hwalk.
    apply walk_cons_inv in Hwalk as [[Hb _]|[_ (m1 & Hk & Hw)]].
    + by destruct before.
    + change (selectValue m (k0 :: before ++ key :: after)
              = Panics (InterfaceConversion v AssertMap)).
      rewrite (selectValue_descend _ _ _ _ Hk) by (by destruct before).
      by apply IH.
Qed.

(** The selector answers with no error other than "value not found". *)
Lemma selectValue_error (path : list string) (m : gmap string value) v e :
  selectValue m path = Returns (v, Some e) -> v = VNil /\ e = valueNotFoundError.
Proof.
  revert m. induction path as [|key rest IH]; intros m; [done|].
  simpl. destruct (m !! key) as [[| | | | |m1]|]; simpl;
    destruct rest; try (by intros [= <- <-]); try done.
  apply IH.
Qed.

(** ** Swarm cluster resolver *)

Section SwarmCluster.

Variable GetClient : PortainerClient * option error.
Variable client : PortainerClient.
Variable endpointID : Z.
Variable doc : gmap string value.
Hypothesis client_ok : GetClient = (client, None).
Hypothesis info_ok : EndpointDockerInfo client endpointID = (doc, None).

Lemma GetEndpointSwarmClusterID_fetched :
  GetEndpointSwarmClusterID GetClient endpointID
  = exec_bind (selectValue doc ["Swarm"; "Cluster"; "ID"]) clusterIDOfSelection.
Proof using client_ok info_ok.
  unfold GetEndpointSwarmClusterID. by rewrite client_ok, info_ok.
Qed.

End SwarmCluster.

(** With an error the resolver hands back the empty identifier. *)
Lemma GetEndpointSwarmClusterID_error_id GetClient endpointID id e :
  GetEndpointSwarmClusterID GetClient endpointID = Returns (id, Some e) -> id = "".
Proof.
  unfold GetEndpointSwarmClusterID.
  destruct GetClient as [portainerClient [e1|]]; [by intros [= <- _]|].
  destruct (EndpointDockerInfo portainerClient endpointID) as [result [e2|]];
    [by intros [= <- _]|].
  destruct (selectValue result ["Swarm"; "Cluster"; "ID"]) as [[v [e3|]]|p]; simpl; [| |done].
  - case_decide; by intros [= <- _].
  - by destruct v.
Qed.

(** Where the walk meets, before the last key, a value that is neither null
    nor a nested mapping, [selectValue] stops in Go's interface-conversion
    panic for that value, and so does [GetEndpointSwarmClusterID] on such a
    docker-info document: neither returns anything, be it "value not found",
    "stack cluster not found" or any other error. *)
Lemma selectValue_shape_error
    (GetClient : PortainerClient * option error) (client : PortainerClient)
    (endpointID : Z) (doc : gmap string value)
    (before after : list string) (key : string) (v : value) :
  after <> [] -> walk doc (before ++ [key]) = Some v -> v <> VNil -> ~ isMap v ->
  selectValue doc (before ++ key :: after) = Panics (InterfaceConversion v AssertMap) /\
  (forall w, selectValue doc (before ++ key :: after)
             <> Returns (w, Some valueNotFoundError)) /\
  (GetClient = (client, None) ->
   EndpointDockerInfo client endpointID = (doc, None) ->
   before ++ key :: after = ["Swarm"; "Cluster"; "ID"] ->
   GetEndpointSwarmClusterID GetClient endpointID
   = Panics (InterfaceConversion v AssertMap) /\
   forall id, GetEndpointSwarmClusterID GetClient endpointID
              <> Returns (id, Some ErrStackClusterNotFound)).
Proof.
  intros Hafter Hwalk Hnil Hmap.
  pose proof (selectValue_shape _ _ _ _ _ Hafter Hwalk Hnil Hmap) as Hsel.
  split; [done|]. split; [by rewrite Hsel|].
  intros Hclient Hinfo Hpath.
  rewrite (GetEndpointSwarmClusterID_fetched _ _ _ _ Hclient Hinfo), <- Hpath, Hsel.
  by split.
Qed.

(** C1, at the failing input.  The claim asks for a shape error that a caller
    can tell from "value not found", and [GetEndpointSwarmClusterID] has a
    branch that would hand such an error on.  On the docker-info document
    [{"Swarm": "inactive"}] no error is produced at all: the unchecked
    assertion in [selectValue] panics, nothing is returned to any caller, and
    the panic goes up through [GetEndpointSwarmClusterID] and
    [GetStackPortainerAccessControl]. *)
Theorem malformed_swarm_document_panics :
  selectValue {["Swarm" := VString "inactive"]} ["Swarm"; "Cluster"; "ID"]
  = Panics (InterfaceConversion (VString "inactive") AssertMap) /\
  (forall w err,
     selectValue {["Swarm" := VString "inactive"]} ["Swarm"; "Cluster"; "ID"]
     <> Returns (w, err)) /\
  GetEndpointSwarmClusterID (sampleClient {["Swarm" := VString "inactive"]} 0, None) 1
  = Panics (InterfaceConversion (VString "inactive") AssertMap) /\
  (forall id err,
     GetEndpointSwarmClusterID (sampleClient {["Swarm" := VString "inactive"]} 0, None) 1
     <> Returns (id, err)) /\
  GetStackPortainerAccessControl (sampleClient {["Swarm" := VString "inactive"]} 0, None)
    1 "web"
  = Panics (InterfaceConversion (VString "inactive") AssertMap).
Proof.
  assert (Hsel : selectValue {["Swarm" := VString "inactive"]} ["Swarm"; "Cluster"; "ID"]
                 = Panics (InterfaceConversion (VString "inactive") AssertMap)).
  { apply (selectValue_shape _ [] ["Cluster"; "ID"] "Swarm");
      [done|by vm_compute|done|by intros [m' ?]]. }
  assert (Hcluster : GetEndpointSwarmClusterID
                       (sampleClient {["Swarm" := VString "inactive"]} 0, None) 1
                     = Panics (InterfaceConversion (VString "inactive") AssertMap)).
  { rewrite (GetEndpointSwarmClusterID_fetched _
               (sampleClient {["Swarm" := VString "inactive"]} 0) _
               {["Swarm" := VString "inactive"]} eq_refl eq_refl).
    by rewrite Hsel. }
  split; [exact Hsel|]. split; [intros w err; by rewrite Hsel|].
  split; [exact Hcluster|]. split; [intros id err; by rewrite Hcluster|].
  unfold GetStackPortainerAccessControl. by rewrite Hcluster.
Qed.

(** C7.  Once the docker-info document is fetched, [GetEndpointSwarmClusterID]
    answers "stack cluster not found" when the selector answers "value not
    found", answers the extracted string without error when the selector
    extracts one, and lets any other selector failure through as it is: a
    returned error by the final branch, a panic because nothing recovers it. *)
Theorem GetEndpointSwarmClusterID_selection
    (GetClient : PortainerClient * option error) (client : PortainerClient)
    (endpointID : Z) (doc : gmap string value) :
  GetClient = (client, None) ->
  EndpointDockerInfo client endpointID = (doc, None) ->
  (forall v, selectValue doc ["Swarm"; "Cluster"; "ID"]
             = Returns (v, Some valueNotFoundError) ->
     GetEndpointSwarmClusterID GetClient endpointID
     = Returns ("", Some ErrStackClusterNotFound)) /\
  (forall s, selectValue doc ["Swarm"; "Cluster"; "ID"] = Returns (VString s, None) ->
     GetEndpointSwarmClusterID GetClient endpointID = Returns (s, None)) /\
  (forall v e, selectValue doc ["Swarm"; "Cluster"; "ID"] = Returns (v, Some e) ->
     e <> valueNotFoundError ->
     GetEndpointSwarmClusterID GetClient endpointID = Returns ("", Some e)) /\
  (forall p, selectValue doc ["Swarm"; "Cluster"; "ID"] = Panics p ->
     GetEndpointSwarmClusterID GetClient endpointID = Panics p) /\
  (forall v e, e <> valueNotFoundError ->
     clusterIDOfSelection (v, Some e) = Returns ("", Some e)).
Proof.
  intros Hclient Hinfo.
  rewrite (GetEndpointSwarmClusterID_fetched _ _ _ _ Hclient Hinfo).
  repeat split.
  - by intros v ->.
  - by intros s ->.
  - intros v e -> He. simpl. by case_decide.
  - by intros p ->.
  - intros v e He. simpl. by case_decide.
Qed.

Lemma GetEndpointSwarmClusterID_selection_witness :
  GetEndpointSwarmClusterID (sampleClient (swarmDocument (VString "abc")) 0, None) 1
  = Returns ("abc", None) /\
  GetEndpointSwarmClusterID (sampleClient ∅ 0, None) 1
  = Returns ("", Some ErrStackClusterNotFound) /\
  clusterIDOfSelection (VNil, Some (ForeignError "malformed"))
  = Returns ("", Some (ForeignError "malformed")).
Proof.
  destruct (GetEndpointSwarmClusterID_selection
              (sampleClient (swarmDocument (VString "abc")) 0, None)
              (sampleClient (swarmDocument (VString "abc")) 0) 1
              (swarmDocument (VString "abc")) eq_refl eq_refl)
    as (_ & Hfound & _).
  destruct (GetEndpointSwarmClusterID_selection
              (sampleClient ∅ 0, None) (sampleClient ∅ 0) 1 ∅ eq_refl eq_refl)
    as (Hmissing & _ & _ & _ & Hother).
  split; [|split].
  - apply Hfound. by vm_compute.
  - apply (Hmissing VNil). by vm_compute.
  - by apply Hother.
Defined.

(** A leaf that is not a string makes the resolver panic at [id.(string)]. *)
Example GetEndpointSwarmClusterID_numeric_leaf :
  GetEndpointSwarmClusterID (sampleClient (swarmDocument (VNumber 5)) 0, None) 1
  = Panics (InterfaceConversion (VNumber 5) AssertString).
Proof. by vm_compute. Qed.

(** ** Entity resolvers *)

Section RangeFirst.

Context {A : Type} (p : A -> bool).

Lemma rangeFirst_app_skip (before later : list A) :
  (forall y, y ∈ before -> p y = false) ->
  rangeFirst p (before ++ later) = rangeFirst p later.
Proof.
  induction before as [|b before IH]; intros Hskip; [done|].
  simpl. rewrite (Hskip b) by left. apply IH.
  intros y Hy. apply Hskip. by right.
Qed.

Lemma rangeFirst_Some (xs : list A) (x : A) :
  rangeFirst p xs = Some x <->
  exists before after,
    xs = before ++ x :: after /\ p x = true /\ forall y, y ∈ before -> p y = false.
Proof.
  split.
  - induction xs as [|x0 xs IH]; [done|].
    simpl. destruct (p x0) eqn:Hp.
    + intros [= ->]. exists [], xs. split; [done|]. split; [done|].
      intros y Hy. by apply elem_of_nil in Hy.
    + intros Hfind. destruct (IH Hfind) as (before & after & -> & Hx & Hskip).
      exists (x0 :: before), after. split; [done|]. split; [done|].
      intros y [->|Hy]%elem_of_cons; [done|by apply Hskip].
  - intros (before & after & -> & Hx & Hskip).
    rewrite rangeFirst_app_skip by done. simpl. by rewrite Hx.
Qed.

Lemma rangeFirst_None (xs : list A) :
  rangeFirst p xs = None <-> forall y, y ∈ xs -> p y = false.
Proof.
  induction xs as [|x0 xs IH]; simpl.
  - split; [|done]. intros _ y Hy. by apply elem_of_nil in Hy.
  - destruct (p x0) eqn:Hp.
    + split; [done|]. intros Hall. rewrite (Hall x0) in Hp by left. done.
    + rewrite IH. split.
      * intros Hall y [->|Hy]%elem_of_cons; [done|by apply Hall].
      * intros Hall y Hy. apply Hall. by right.
Qed.

End RangeFirst.

(** The loop-and-fallback shape shared by the resolvers, for a test [p] that
    decides [matches]. *)
Lemma rangeFirst_resolves {A} (p : A -> bool) (matches : A -> Prop)
    (zero : A) (notFound : error) (xs : list A) :
  (forall y, p y = true <-> matches y) ->
  resolvesFirst matches zero notFound xs
    match rangeFirst p xs with
    | Some x => (x, None)
    | None => (zero, Some notFound)
    end.
Proof.
  intros Hp.
  assert (Hfalse : forall y, p y = false <-> ~ matches y).
  { intros y. rewrite <- Hp. by destruct (p y). }
  split; [|split].
  - intros x. split.
    + destruct (rangeFirst p xs) as [x'|] eqn:Hfind; [|done].
      intros [= ->]. apply rangeFirst_Some in Hfind as (before & after & -> & Hx & Hskip).
      exists before, after. split; [done|]. split; [by apply Hp|].
      intros y Hy. by apply Hfalse, Hskip.
    + intros (before & after & -> & Hx & Hskip).
      assert (Hfind : rangeFirst p (before ++ x :: after) = Some x).
      { apply rangeFirst_Some. exists before, after. split; [done|].
        split; [by apply Hp|]. intros y Hy. by apply Hfalse, Hskip. }
      by rewrite Hfind.
  - split.
    + destruct (rangeFirst p xs) as [x'|] eqn:Hfind; [done|].
      intros _ y Hy. apply Hfalse. by apply (proj1 (rangeFirst_None p xs)).
    + intros Hnone.
      assert (Hfind : rangeFirst p xs = None).
      { apply rangeFirst_None. intros y Hy. by apply Hfalse, Hnone. }
      by rewrite Hfind.
  - destruct (rangeFirst p xs) as [x|]; [right; by exists x|by left].
Qed.

(** The four not-found errors of the entity kinds are pairwise distinct. *)
Lemma notFound_errors_distinct :
  NoDup [ErrEndpointNotFound; ErrEndpointGroupNotFound; ErrStackNotFound; ErrUserNotFound].
Proof. apply (bool_decide_unpack _). by vm_compute. Qed.

(** C4.  Over a fetched collection, every resolver by name (endpoint, endpoint
    group, stack, user, and the lookup in a caller-supplied endpoint list)
    answers the first element in collection order whose name equals the query
    as a string, and answers its kind's not-found error exactly when no
    element has that name; the lookup by identifier does the same on the
    identifier; the not-found errors of the kinds are distinct values. *)
Theorem resolvers_first_exact_match
    (GetClient : PortainerClient * option error) (client : PortainerClient)
    (name : string) :
  GetClient = (client, None) ->
  (forall endpoints, EndpointList client = (endpoints, None) ->
     resolvesFirst (fun e => Endpoint.Name e = name) Endpoint.zero ErrEndpointNotFound
       endpoints (GetEndpointByName GetClient name)) /\
  (forall endpointGroups, EndpointGroupList client = (endpointGroups, None) ->
     resolvesFirst (fun g => EndpointGroup.Name g = name) EndpointGroup.zero
       ErrEndpointGroupNotFound endpointGroups (GetEndpointGroupByName GetClient name)) /\
  (forall swarmID endpointID stacks,
     StackList client {| Filter := {| SwarmID := swarmID; EndpointID := endpointID |} |}
     = (stacks, None) ->
     resolvesFirst (fun s => Stack.Name s = name) Stack.zero ErrStackNotFound
       stacks (GetStackByName GetClient name swarmID endpointID)) /\
  (forall users, UserList client = (users, None) ->
     resolvesFirst (fun u => User.Username u = name) User.zero ErrUserNotFound
       users (GetUserByName GetClient name)) /\
  (forall endpoints,
     resolvesFirst (fun e => Endpoint.Name e = name) Endpoint.zero ErrEndpointNotFound
       endpoints (GetEndpointFromListByName endpoints name)) /\
  (forall endpoints id,
     resolvesFirst (fun e => Endpoint.ID e = id) Endpoint.zero ErrEndpointNotFound
       endpoints (GetEndpointFromListByID endpoints id)) /\
  NoDup [ErrEndpointNotFound; ErrEndpointGroupNotFound; ErrStackNotFound; ErrUserNotFound].
Proof.
  intros Hclient.
  repeat apply conj.
  - intros endpoints Hlist. unfold GetEndpointByName. rewrite Hclient, Hlist.
    apply rangeFirst_resolves. intros y. apply String.eqb_eq.
  - intros groups Hlist. unfold GetEndpointGroupByName. rewrite Hclient, Hlist.
    apply rangeFirst_resolves. intros y. apply String.eqb_eq.
  - intros swarmID endpointID stacks Hlist. unfold GetStackByName.
    rewrite Hclient, Hlist.
    apply rangeFirst_resolves. intros y. apply String.eqb_eq.
  - intros users Hlist. unfold GetUserByName. rewrite Hclient, Hlist.
    apply rangeFirst_resolves. intros y. apply String.eqb_eq.
  - intros endpoints. unfold GetEndpointFromListByName.
    apply rangeFirst_resolves. intros y. apply String.eqb_eq.
  - intros endpoints id. unfold GetEndpointFromListByID.
    apply rangeFirst_resolves. intros y. apply Z.eqb_eq.
  - apply notFound_errors_distinct.
Qed.

Lemma resolvers_first_exact_match_witness :
  GetEndpointByName (sampleClient ∅ 0, None) "staging" = (Endpoint.mk 2 "staging" 1, None) /\
  GetEndpointByName (sampleClient ∅ 0, None) "qa" = (Endpoint.zero, Some ErrEndpointNotFound) /\
  GetEndpointByName (sampleClient ∅ 0, None) "Staging"
  = (Endpoint.zero, Some ErrEndpointNotFound).
Proof.
  destruct (resolvers_first_exact_match (sampleClient ∅ 0, None) (sampleClient ∅ 0)
              "staging" eq_refl) as (Hstaging & _).
  destruct (resolvers_first_exact_match (sampleClient ∅ 0, None) (sampleClient ∅ 0)
              "qa" eq_refl) as (Hqa & _).
  destruct (resolvers_first_exact_match (sampleClient ∅ 0, None) (sampleClient ∅ 0)
              "Staging" eq_refl) as (Hcase & _).
  split; [|split].
  - apply (Hstaging sampleEndpoints eq_refl).
    exists [Endpoint.mk 1 "prod" 1], []. split; [done|]. split; [done|].
    intros y Hy. apply list_elem_of_singleton in Hy as ->. done.
  - apply (Hqa sampleEndpoints eq_refl).
    intros y Hy. unfold sampleEndpoints in Hy.
    apply elem_of_cons in Hy as [->|Hy]; [done|].
    apply list_elem_of_singleton in Hy as ->. done.
  - apply (Hcase sampleEndpoints eq_refl).
    intros y Hy. unfold sampleEndpoints in Hy.
    apply elem_of_cons in Hy as [->|Hy]; [done|].
    apply list_elem_of_singleton in Hy as ->. done.
Defined.

(** ** Default endpoint resolver *)

(** Whatever the client does, an error from [GetDefaultEndpoint] comes with
    the zero endpoint. *)
Lemma GetDefaultEndpoint_error_zero GetClient e err :
  GetDefaultEndpoint GetClient = (e, Some err) -> e = Endpoint.zero.
Proof.
  unfold GetDefaultEndpoint.
  destruct GetClient as [portainerClient [e1|]]; [by intros [= <- _]|].
  destruct (EndpointList portainerClient) as [endpoints [e2|]]; [by intros [= <- _]|].
  destruct endpoints as [|e0 [|e1 endpoints]]; simpl; by intros [= <- _] || done.
Qed.

(** C5.  Over a fetched endpoint collection, [GetDefaultEndpoint] answers "no
    endpoints available" for the empty collection, the element itself for a
    collection of one, and "several endpoints available" for two or more; the
    two errors are different values and each comes with the zero endpoint. *)
Theorem GetDefaultEndpoint_cardinality
    (GetClient : PortainerClient * option error) (client : PortainerClient)
    (endpoints : list Endpoint.t) :
  GetClient = (client, None) ->
  EndpointList client = (endpoints, None) ->
  (endpoints = [] ->
     GetDefaultEndpoint GetClient = (Endpoint.zero, Some ErrNoEndpointsAvailable)) /\
  (forall e, endpoints = [e] -> GetDefaultEndpoint GetClient = (e, None)) /\
  (2 <= length endpoints ->
     GetDefaultEndpoint GetClient = (Endpoint.zero, Some ErrSeveralEndpointsAvailable)) /\
  ErrNoEndpointsAvailable <> ErrSeveralEndpointsAvailable /\
  (forall e err, GetDefaultEndpoint GetClient = (e, Some err) -> e = Endpoint.zero).
Proof.
  intros Hclient Hlist.
  unfold GetDefaultEndpoint at 1 2 3. rewrite Hclient, Hlist.
  repeat apply conj.
  - by intros ->.
  - by intros e ->.
  - intros Hlen. destruct endpoints as [|e0 [|e1 later]]; simpl in Hlen; [lia..|done].
  - done.
  - apply GetDefaultEndpoint_error_zero.
Qed.

Lemma GetDefaultEndpoint_cardinality_witness :
  GetDefaultEndpoint (sampleClient ∅ 0, None)
  = (Endpoint.zero, Some ErrSeveralEndpointsAvailable).
Proof.
  apply (GetDefaultEndpoint_cardinality (sampleClient ∅ 0, None) (sampleClient ∅ 0)
           sampleEndpoints eq_refl eq_refl).
  simpl. lia.
Defined.

(** ** Errors of the API client *)

(** The resolvers that test the client's error hand it back as it is, with the
    zero value. *)
Lemma list_resolvers_propagate
    (GetClient : PortainerClient * option error) (client : PortainerClient) (e : error) :
  GetClient = (client, None) ->
  (forall endpoints, EndpointList client = (endpoints, Some e) ->
     GetDefaultEndpoint GetClient = (Endpoint.zero, Some e) /\
     forall name, GetEndpointByName GetClient name = (Endpoint.zero, Some e)) /\
  (forall endpointGroups name, EndpointGroupList client = (endpointGroups, Some e) ->
     GetEndpointGroupByName GetClient name = (EndpointGroup.zero, Some e)) /\
  (forall stacks name swarmID endpointID,
     StackList client {| Filter := {| SwarmID := swarmID; EndpointID := endpointID |} |}
     = (stacks, Some e) ->
     GetStackByName GetClient name swarmID endpointID = (Stack.zero, Some e)).
Proof.
  intros Hclient. repeat apply conj.
  - intros endpoints Hlist. unfold GetDefaultEndpoint, GetEndpointByName.
    by rewrite Hclient, Hlist.
  - intros groups name Hlist. unfold GetEndpointGroupByName. by rewrite Hclient, Hlist.
  - intros stacks name swarmID endpointID Hlist. unfold GetStackByName.
    by rewrite Hclient, Hlist.
Qed.

(** [GetUserByName] does not: when [UserList] fails, its error survives only
    next to a user found in whatever list came with it; otherwise it is
    replaced by "user not found". *)
Lemma GetUserByName_failed_list
    (GetClient : PortainerClient * option error) (client : PortainerClient)
    (users : list User.t) (e : error) (name : string) :
  GetClient = (client, None) -> UserList client = (users, Some e) ->
  (exists user, user ∈ users /\ GetUserByName GetClient name = (user, Some e)) \/
  GetUserByName GetClient name = (User.zero, Some ErrUserNotFound).
Proof.
  intros Hclient Hlist. unfold GetUserByName. rewrite Hclient, Hlist.
  destruct (rangeFirst _ users) as [user|] eqn:Hfind; [left|by right].
  exists user. split; [|done].
  apply rangeFirst_Some in Hfind as (before & after & -> & _).
  apply elem_of_app. right. by left.
Qed.

(** C2, at the failing input: the user listing fails with a transport error
    and an empty list, and [GetUserByName] answers "user not found" in place of
    that error. *)
Theorem GetUserByName_replaces_transport_error :
  UserList unreachableUsersClient = ([], Some (ForeignError "dial tcp: connection refused")) /\
  GetUserByName (unreachableUsersClient, None) "alice" = (User.zero, Some ErrUserNotFound) /\
  Some ErrUserNotFound <> Some (ForeignError "dial tcp: connection refused").
Proof. by vm_compute. Qed.

(** ** Access-control decorator *)

Lemma pddr_hasAccessControl_spec (ddr : portainerDecoratedDockerResource) :
  pddr_hasAccessControl ddr = true <->
  ResourceControl.ID (ResourceControl (Portainer ddr)) <> 0%Z.
Proof.
  unfold pddr_hasAccessControl. rewrite negb_true_iff. apply Z.eqb_neq.
Qed.

Lemma ds_hasAccessControl_spec (ds : decoratedStack) :
  ds_hasAccessControl ds = true <-> ResourceControl.ID (ds_ResourceControl ds) <> 0%Z.
Proof.
  unfold ds_hasAccessControl. rewrite negb_true_iff. apply Z.eqb_neq.
Qed.

Lemma GetDockerResourcePortainerAccessControl_decoded
    (GetClient : PortainerClient * option error) (client : PortainerClient)
    (endpointID : Z) (resourceID resourceControlType : string)
    (pddr : portainerDecoratedDockerResource) :
  GetClient = (client, None) ->
  DoJSONWithToken_DockerResource client
    ("endpoints/" +:+ pretty endpointID +:+ "/docker/" +:+ resourceControlType
     +:+ "s/" +:+ resourceID) MethodGet pddr_zero = (pddr, None) ->
  GetDockerResourcePortainerAccessControl GetClient endpointID resourceID resourceControlType
  = sentinel (ResourceControl (Portainer pddr)).
Proof.
  intros Hclient Hdecode. unfold GetDockerResourcePortainerAccessControl, sentinel.
  rewrite Hclient, Hdecode. unfold pddr_hasAccessControl.
  case_decide as Hid.
  - by rewrite Hid.
  - apply Z.eqb_neq in Hid. by rewrite Hid.
Qed.

Lemma GetStackPortainerAccessControl_cluster
    (GetClient : PortainerClient * option error) (endpointID : Z) (stackName : string) :
  GetStackPortainerAccessControl GetClient endpointID stackName
  = match GetEndpointSwarmClusterID GetClient endpointID with
    | Panics p => Panics p
    | Returns (endpointSwarmClusterID, None) =>
        Returns (stackAccessControl GetClient stackName endpointSwarmClusterID endpointID)
    | Returns (endpointSwarmClusterID, Some e) =>
        if decide (e = ErrStackClusterNotFound)
        then Returns (stackAccessControl GetClient stackName "" endpointID)
        else Returns (ResourceControl.zero, Some e)
    end.
Proof.
  unfold GetStackPortainerAccessControl.
  destruct (GetEndpointSwarmClusterID GetClient endpointID) as [[id err]|p] eqn:Hcluster;
    [|done].
  assert (Hrest : forall swarmID,
    (let '(stack, err) := GetStackByName GetClient stackName swarmID endpointID in
     match err with
     | Some _ => Returns (ResourceControl.zero, err)
     | None =>
         let '(portainerClient, err) := GetClient in
         match err with
         | Some _ => Returns (ResourceControl.zero, err)
         | None =>
             let '(ds, err) :=
               DoJSONWithToken_Stack portainerClient
                 ("stacks/" +:+ pretty (Stack.ID stack)) MethodGet ds_zero in
             match err with
             | Some _ => Returns (ResourceControl.zero, err)
             | None =>
                 if ds_hasAccessControl ds
                 then Returns (ds_ResourceControl ds, None)
                 else Returns (ResourceControl.zero, Some ErrAccessControlNotFound)
             end
         end
     end) = Returns (stackAccessControl GetClient stackName swarmID endpointID)).
  { intros swarmID. unfold stackAccessControl.
    destruct (GetStackByName GetClient stackName swarmID endpointID) as [stack [e|]];
      [done|].
    destruct GetClient as [portainerClient [e|]]; [done|].
    destruct (DoJSONWithToken_Stack _ _ _ _) as [ds [e|]]; [done|].
    unfold sentinel, ds_hasAccessControl. case_decide as Hid.
    - by rewrite Hid.
    - apply Z.eqb_neq in Hid. by rewrite Hid. }
  simpl. destruct err as [e|].
  - apply GetEndpointSwarmClusterID_error_id in Hcluster as ->.
    case_decide as He.
    + subst e. rewrite bool_decide_eq_false_2 by (by intros [_ ?]). apply Hrest.
    + rewrite bool_decide_eq_true_2; [done|]. split; [done|]. by intros [= ->].
  - rewrite bool_decide_eq_false_2 by (by intros [? _]). apply Hrest.
Qed.

(** C6.  For both decoration shapes, once the decorated resource is decoded,
    the decorator answers "access control not found" when the access control's
    identifier is zero, whatever the other members hold, and answers the
    access control as decoded when the identifier is not zero. *)
Theorem accessControl_sentinel
    (GetClient : PortainerClient * option error) (client : PortainerClient) :
  GetClient = (client, None) ->
  (forall endpointID resourceID resourceControlType pddr,
     DoJSONWithToken_DockerResource client
       ("endpoints/" +:+ pretty endpointID +:+ "/docker/" +:+ resourceControlType
        +:+ "s/" +:+ resourceID) MethodGet pddr_zero = (pddr, None) ->
     (ResourceControl.ID (ResourceControl (Portainer pddr)) = 0%Z ->
        GetDockerResourcePortainerAccessControl GetClient endpointID resourceID
          resourceControlType
        = (ResourceControl.zero, Some ErrAccessControlNotFound)) /\
     (ResourceControl.ID (ResourceControl (Portainer pddr)) <> 0%Z ->
        GetDockerResourcePortainerAccessControl GetClient endpointID resourceID
          resourceControlType
        = (ResourceControl (Portainer pddr), None))) /\
  (forall endpointID stackName swarmID stack ds,
     GetEndpointSwarmClusterID GetClient endpointID = Returns (swarmID, None) \/
     GetEndpointSwarmClusterID GetClient endpointID
     = Returns (swarmID, Some ErrStackClusterNotFound) ->
     GetStackByName GetClient stackName swarmID endpointID = (stack, None) ->
     DoJSONWithToken_Stack client ("stacks/" +:+ pretty (Stack.ID stack)) MethodGet ds_zero
     = (ds, None) ->
     (ResourceControl.ID (ds_ResourceControl ds) = 0%Z ->
        GetStackPortainerAccessControl GetClient endpointID stackName
        = Returns (ResourceControl.zero, Some ErrAccessControlNotFound)) /\
     (ResourceControl.ID (ds_ResourceControl ds) <> 0%Z ->
        GetStackPortainerAccessControl GetClient endpointID stackName
        = Returns (ds_ResourceControl ds, None))).
Proof.
  intros Hclient. split.
  - intros endpointID resourceID resourceControlType pddr Hdecode.
    rewrite (GetDockerResourcePortainerAccessControl_decoded _ _ _ _ _ _ Hclient Hdecode).
    unfold sentinel. split; intros Hid; by case_decide.
  - intros endpointID stackName swarmID stack ds Hcluster Hstack Hdecode.
    rewrite GetStackPortainerAccessControl_cluster.
    assert (Hrest : stackAccessControl GetClient stackName swarmID endpointID
                    = sentinel (ds_ResourceControl ds)).
    { unfold stackAccessControl. by rewrite Hstack, Hclient, Hdecode. }
    destruct Hcluster as [Hcluster|Hcluster].
    + rewrite Hcluster, Hrest. unfold sentinel. split; intros Hid; by case_decide.
    + pose proof (GetEndpointSwarmClusterID_error_id _ _ _ _ Hcluster) as ->.
      rewrite Hcluster, decide_True by done. rewrite Hrest.
      unfold sentinel. split; intros Hid; by case_decide.
Qed.

Lemma accessControl_sentinel_witness :
  GetDockerResourcePortainerAccessControl (sampleClient ∅ 0, None) 1 "web" "config"
  = (ResourceControl.zero, Some ErrAccessControlNotFound) /\
  GetDockerResourcePortainerAccessControl (sampleClient ∅ 42, None) 1 "web" "config"
  = (sampleAccessControl 42, None) /\
  GetStackPortainerAccessControl (sampleClient ∅ 0, None) 1 "web"
  = Returns (ResourceControl.zero, Some ErrAccessControlNotFound) /\
  GetStackPortainerAccessControl (sampleClient ∅ 42, None) 1 "web"
  = Returns (sampleAccessControl 42, None).
Proof.
  destruct (accessControl_sentinel (sampleClient ∅ 0, None) (sampleClient ∅ 0) eq_refl)
    as [Hdocker0 Hstack0].
  destruct (accessControl_sentinel (sampleClient ∅ 42, None) (sampleClient ∅ 42) eq_refl)
    as [Hdocker42 Hstack42].
  repeat apply conj.
  - by apply (Hdocker0 1%Z "web" "config" _ eq_refl).
  - by apply (Hdocker42 1%Z "web" "config" _ eq_refl).
  - apply (Hstack0 1%Z "web" "" (Stack.mk 5 "web" 1 "")
             {| ds_Stack := Stack.mk 5 "web" 1 "";
                ds_ResourceControl := sampleAccessControl 0 |});
      [right; by vm_compute|by vm_compute|done|done].
  - apply (Hstack42 1%Z "web" "" (Stack.mk 5 "web" 1 "")
             {| ds_Stack := Stack.mk 5 "web" 1 "";
                ds_ResourceControl := sampleAccessControl 42 |});
      [right; by vm_compute|by vm_compute|done|done].
Defined.

(** C8.  [GetStackPortainerAccessControl] takes "stack cluster not found" from
    the cluster resolution as "no cluster filter": it goes on to resolve the
    stack by name with the empty swarm identifier.  Any other error of the
    cluster resolution ends the call with that error, and a panic ends it with
    that panic.  Having resolved the stack and decoded its decorated form, it
    applies the sentinel check, the same one as the Docker-resource variant. *)
Theorem GetStackPortainerAccessControl_cluster_not_found
    (GetClient : PortainerClient * option error) (endpointID : Z) (stackName : string) :
  (forall id, GetEndpointSwarmClusterID GetClient endpointID
              = Returns (id, Some ErrStackClusterNotFound) ->
     (forall stack e, GetStackByName GetClient stackName "" endpointID = (stack, Some e) ->
        GetStackPortainerAccessControl GetClient endpointID stackName
        = Returns (ResourceControl.zero, Some e)) /\
     (forall client stack ds,
        GetClient = (client, None) ->
        GetStackByName GetClient stackName "" endpointID = (stack, None) ->
        DoJSONWithToken_Stack client ("stacks/" +:+ pretty (Stack.ID stack)) MethodGet ds_zero
        = (ds, None) ->
        GetStackPortainerAccessControl GetClient endpointID stackName
        = Returns (sentinel (ds_ResourceControl ds)))) /\
  (forall id e, GetEndpointSwarmClusterID GetClient endpointID = Returns (id, Some e) ->
     e <> ErrStackClusterNotFound ->
     GetStackPortainerAccessControl GetClient endpointID stackName
     = Returns (ResourceControl.zero, Some e)) /\
  (forall p, GetEndpointSwarmClusterID GetClient endpointID = Panics p ->
     GetStackPortainerAccessControl GetClient endpointID stackName = Panics p) /\
  (forall client resourceID resourceControlType pddr,
     GetClient = (client, None) ->
     DoJSONWithToken_DockerResource client
       ("endpoints/" +:+ pretty endpointID +:+ "/docker/" +:+ resourceControlType
        +:+ "s/" +:+ resourceID) MethodGet pddr_zero = (pddr, None) ->
     GetDockerResourcePortainerAccessControl GetClient endpointID resourceID
       resourceControlType
     = sentinel (ResourceControl (Portainer pddr))).
Proof.
  rewrite GetStackPortainerAccessControl_cluster.
  split; [|split; [|split]].
  - intros id Hcluster. rewrite Hcluster, decide_True by done. split.
    + intros stack e Hstack. unfold stackAccessControl. by rewrite Hstack.
    + intros client stack ds Hclient Hstack Hdecode.
      unfold stackAccessControl. by rewrite Hstack, Hclient, Hdecode.
  - intros id e Hcluster He. by rewrite Hcluster, decide_False.
  - by intros p ->.
  - intros client resourceID resourceControlType pddr Hclient Hdecode.
    by apply GetDockerResourcePortainerAccessControl_decoded with client.
Qed.

Lemma GetStackPortainerAccessControl_cluster_not_found_witness :
  GetEndpointSwarmClusterID (sampleClient ∅ 42, None) 1
  = Returns ("", Some ErrStackClusterNotFound) /\
  GetStackPortainerAccessControl (sampleClient ∅ 42, None) 1 "web"
  = Returns (sampleAccessControl 42, None).
Proof.
  split; [by vm_compute|].
  destruct (GetStackPortainerAccessControl_cluster_not_found
              (sampleClient ∅ 42, None) 1 "web") as (Htolerated & _).
  destruct (Htolerated "") as [_ Hresolved]; [by vm_compute|].
  apply (Hresolved (sampleClient ∅ 42) (Stack.mk 5 "web" 1 "")
           {| ds_Stack := Stack.mk 5 "web" 1 "";
              ds_ResourceControl := sampleAccessControl 42 |});
    [done|by vm_compute|done].
Defined.

(** ** Type structure renderer *)

Section Renderer.

Context `{reflect.RType T}.

Lemma repr_S (depth : nat) (t : T) (margin beforeMargin : string) :
  repr (S depth) t margin beforeMargin =
  match reflect.kind t with
  | reflect.Struct =>
      match appendFields
              (fun i =>
                 match repr depth (reflect.Type_ (reflect.field t i)) margin
                         (beforeMargin +:+ margin) with
                 | Some s =>
                     Some (Sprintln (beforeMargin +:+ margin
                                     +:+ reflect.Name (reflect.field t i) +:+ " " +:+ s))
                 | None => None
                 end)
              (seq 0 (reflect.numField t)) (Sprintln "{") with
      | Some r => Some (r +:+ (beforeMargin +:+ "}"))
      | None => None
      end
  | reflect.Array | reflect.Slice =>
      match repr depth (reflect.elem t) margin beforeMargin with
      | Some s => Some ("[]" +:+ s)
      | None => None
      end
  | _ => Some (reflect.name t)
  end.
Proof. done. Qed.

Lemma appendFields_mono (line1 line2 : nat -> option string) indices r out :
  (forall i s, line1 i = Some s -> line2 i = Some s) ->
  appendFields line1 indices r = Some out -> appendFields line2 indices r = Some out.
Proof.
  intros Hline. revert r. induction indices as [|i later IH]; intros r; [done|].
  simpl. destruct (line1 i) as [s|] eqn:H1; [|done].
  rewrite (Hline _ _ H1). apply IH.
Qed.

Lemma appendFields_total (line : nat -> option string) indices r :
  (forall i, i ∈ indices -> is_Some (line i)) -> is_Some (appendFields line indices r).
Proof.
  revert r. induction indices as [|i later IH]; intros r Hline; [by eexists|].
  simpl. destruct (Hline i) as [s ->]; [by left|].
  apply IH. intros j Hj. apply Hline. by right.
Qed.

(** A rendering that completes within some depth is the rendering at every
    greater depth. *)
Lemma repr_depth_mono (depth depth' : nat) (t : T) (margin beforeMargin r : string) :
  depth <= depth' ->
  repr depth t margin beforeMargin = Some r -> repr depth' t margin beforeMargin = Some r.
Proof.
  revert depth' t beforeMargin r.
  induction depth as [|depth IH]; intros depth' t beforeMargin r Hle; [done|].
  destruct depth' as [|depth']; [lia|].
  rewrite !repr_S.
  destruct (reflect.kind t); try done.
  - (* Array *)
    destruct (repr depth (reflect.elem t) margin beforeMargin) as [s|] eqn:Helem; [|done].
    by rewrite (IH depth' _ _ _ ltac:(lia) Helem).
  - (* Slice *)
    destruct (repr depth (reflect.elem t) margin beforeMargin) as [s|] eqn:Helem; [|done].
    by rewrite (IH depth' _ _ _ ltac:(lia) Helem).
  - (* Struct *)
    destruct (appendFields _ (seq 0 (reflect.numField t)) (Sprintln "{"))
      as [out|] eqn:Hfields; [|done].
    intros [= <-].
    erewrite appendFields_mono; [done| |exact Hfields].
    intros i s. simpl.
    destruct (repr depth _ margin (beforeMargin +:+ margin)) as [s'|] eqn:Hfield; [|done].
    by rewrite (IH depth' _ _ _ ltac:(lia) Hfield).
Qed.

(** Two completed renderings of one type description with the same
    indentation strings are the same string, whatever depth each ran at. *)
Lemma repr_functional (depth1 depth2 : nat) (t : T) (margin beforeMargin r1 r2 : string) :
  repr depth1 t margin beforeMargin = Some r1 ->
  repr depth2 t margin beforeMargin = Some r2 -> r1 = r2.
Proof.
  intros H1 H2.
  apply (repr_depth_mono _ (depth1 `max` depth2)) in H1; [|lia].
  apply (repr_depth_mono _ (depth1 `max` depth2)) in H2; [|lia].
  congruence.
Qed.

(** On a finite acyclic type graph the rendering completes at any depth
    above the rank of the type. *)
Lemma repr_total (rank : T -> nat) (depth : nat) (t : T) (margin beforeMargin : string) :
  acyclic rank -> rank t < depth -> is_Some (repr depth t margin beforeMargin).
Proof.
  intros Hacyclic. revert t beforeMargin.
  induction depth as [|depth IH]; intros t beforeMargin Hrank; [lia|].
  rewrite repr_S. specialize (Hacyclic t).
  destruct (reflect.kind t); try by eexists.
  - destruct (IH (reflect.elem t) beforeMargin) as [s ->]; [lia|by eexists].
  - destruct (IH (reflect.elem t) beforeMargin) as [s ->]; [lia|by eexists].
  - destruct (appendFields_total
                (fun i =>
                   match repr depth (reflect.Type_ (reflect.field t i)) margin
                           (beforeMargin +:+ margin) with
                   | Some s =>
                       Some (Sprintln (beforeMargin +:+ margin
                                       +:+ reflect.Name (reflect.field t i) +:+ " " +:+ s))
                   | None => None
                   end)
                (seq 0 (reflect.numField t)) (Sprintln "{")) as [out ->]; [|by eexists].
    intros i Hi. apply elem_of_seq in Hi.
    destruct (IH (reflect.Type_ (reflect.field t i)) (beforeMargin +:+ margin)) as [s ->];
      [|by eexists].
    specialize (Hacyclic i). lia.
Qed.

(** C9.  On a finite acyclic type graph, for every type description and
    indentation strings there is one string that every rendering yields: a
    rendering run deep enough completes with it, and any two completed
    renderings, of [repr] and of [GetFormatHelp], are byte for byte equal. *)
Theorem repr_deterministic (rank : T -> nat) (t : T) (margin beforeMargin : string) :
  acyclic rank ->
  (exists r,
     (forall depth, rank t < depth -> repr depth t margin beforeMargin = Some r) /\
     (forall depth r', repr depth t margin beforeMargin = Some r' -> r' = r)) /\
  (forall depth1 depth2 r1 r2,
     repr depth1 t margin beforeMargin = Some r1 ->
     repr depth2 t margin beforeMargin = Some r2 -> r1 = r2) /\
  (exists help,
     (forall depth, rank t < depth -> GetFormatHelp depth t = Some help) /\
     (forall depth help', GetFormatHelp depth t = Some help' -> help' = help)).
Proof.
  intros Hacyclic.
  destruct (repr_total rank (S (rank t)) t margin beforeMargin Hacyclic) as [r Hr]; [lia|].
  assert (Hall : forall m b r0,
    repr (S (rank t)) t m b = Some r0 ->
    (forall depth, rank t < depth -> repr depth t m b = Some r0) /\
    (forall depth r', repr depth t m b = Some r' -> r' = r0)).
  { intros m b r0 Hr0. split.
    - intros depth Hdepth. apply (repr_depth_mono (S (rank t))); [lia|done].
    - intros depth r' Hr'. by apply (repr_functional depth (S (rank t)) t m b). }
  split; [|split].
  - exists r. by apply Hall.
  - intros depth1 depth2 r1 r2. apply repr_functional.
  - destruct (repr_total rank (S (rank t)) t "  " "  " Hacyclic) as [s Hs]; [lia|].
    destruct (Hall _ _ _ Hs) as [Hdeep Hsame].
    eexists. split.
    + intros depth Hdepth. unfold GetFormatHelp. by rewrite (Hdeep depth Hdepth).
    + intros depth help'. unfold GetFormatHelp.
      destruct (repr depth t "  " "  ") as [s'|] eqn:Hs'; [|done].
      rewrite (Hsame _ _ Hs'). by intros [= <-].
Qed.

End Renderer.

Lemma sampleRank_acyclic : acyclic sampleRank.
Proof.
  intros [| | |]; simpl; try done; try lia.
  intros [|[|[|i]]] Hi; simpl; lia.
Qed.

Lemma repr_deterministic_witness :
  exists r, repr 3 tyGroup "  " "  " = Some r /\ repr 7 tyGroup "  " "  " = Some r.
Proof.
  destruct (repr_deterministic sampleRank tyGroup "  " "  " sampleRank_acyclic)
    as [[r [Hdeep _]] _].
  exists r. split; apply Hdeep; simpl; lia.
Defined.

Example repr_sample :
  repr 3 tyGroup "  " "  "
  = Some ("{" +:+ newline +:+
          "    ID EndpointGroupID" +:+ newline +:+
          "    Name string" +:+ newline +:+
          "    Tags []string" +:+ newline +:+
          "  }").
Proof. by vm_compute. Qed.

(** * Further properties of the code *)

(** ** The selector's answers *)

Lemma selectValue_found_walk (path : list string) (m : gmap string value) (v : value) :
  selectValue m path = Returns (v, None) ->
  path <> [] /\ walk m path = Some v /\ v <> VNil.
Proof.
  revert m. induction path as [|key rest IH]; intros m; [done|].
  intros Hsel. split; [done|].
  destruct (m !! key) as [w|] eqn:Hk; [|by rewrite (selectValue_absent _ _ _ Hk) in Hsel].
  destruct (value_nil_dec w) as [->|Hw]; [by rewrite (selectValue_null _ _ _ Hk) in Hsel|].
  destruct rest as [|key2 rest].
  - rewrite (selectValue_last _ _ _ Hk Hw) in Hsel. injection Hsel as <-.
    by rewrite walk_cons, Hk.
  - destruct w as [| | | | |m1];
      try (rewrite (selectValue_not_a_map _ _ _ _ Hk) in Hsel;
           [done|done|by intros [? ?]|done]).
    rewrite (selectValue_descend _ _ _ _ Hk) in Hsel by done.
    rewrite (walk_cons_map _ _ _ _ Hk).
    by destruct (IH _ Hsel) as (_ & ? & ?).
Qed.

Lemma walk_selectValue (path : list string) (m : gmap string value) (v : value) :
  path <> [] -> walk m path = Some v -> v <> VNil ->
  selectValue m path = Returns (v, None).
Proof.
  revert m. induction path as [|key rest IH]; intros m; [done|].
  intros _ Hwalk Hv.
  apply walk_cons_inv in Hwalk as [[-> Hk]|[Hrest (m1 & Hk & Hw)]].
  - by apply selectValue_last.
  - rewrite (selectValue_descend _ _ _ _ Hk) by done. by apply IH.
Qed.

(** Selecting along a path that passes through a mapping continues inside
    that mapping. *)
Lemma selectValue_through (before rest : list string) (m m' : gmap string value) :
  walk m before = Some (VMap m') -> rest <> [] ->
  selectValue m (before ++ rest) = selectValue m' rest.
Proof.
  intros Hwalk Hrest. revert m Hwalk.
  induction before as [|k0 before IH]; intros m Hwalk.
  - rewrite walk_nil in Hwalk. by injection Hwalk as ->.
  - change (selectValue m (k0 :: before ++ rest) = selectValue m' rest).
    apply walk_cons_inv in Hwalk as [[-> Hk]|[_ (m1 & Hk & Hw)]].
    + by rewrite (selectValue_descend _ _ _ _ Hk).
    + rewrite (selectValue_descend _ _ _ _ Hk) by (by destruct before).
      by apply IH.
Qed.

(** Where a panic of the selector comes from. *)
Lemma selectValue_panic_inv (path : list string) (m : gmap string value) (p : panic) :
  selectValue m path = Panics p ->
  (path = [] /\ p = IndexOutOfRange) \/
  exists before key after v,
    path = before ++ key :: after /\ after <> [] /\
    walk m (before ++ [key]) = Some v /\ v <> VNil /\ ~ isMap v /\
    p = InterfaceConversion v AssertMap.
Proof.
  revert m. induction path as [|key rest IH]; intros m Hsel.
  - left. simpl in Hsel. by injection Hsel as <-.
  - right.
    destruct (m !! key) as [w|] eqn:Hk; [|by rewrite (selectValue_absent _ _ _ Hk) in Hsel].
    destruct (value_nil_dec w) as [->|Hw]; [by rewrite (selectValue_null _ _ _ Hk) in Hsel|].
    destruct rest as [|key2 rest];
      [by rewrite (selectValue_last _ _ _ Hk Hw) in Hsel|].
    assert (Hhere : ~ isMap w -> exists before key0 after v,
      key :: key2 :: rest = before ++ key0 :: after /\ after <> [] /\
      walk m (before ++ [key0]) = Some v /\ v <> VNil /\ ~ isMap v /\
      p = InterfaceConversion v AssertMap).
    { intros Hmap. exists [], key, (key2 :: rest), w.
      rewrite (selectValue_not_a_map _ _ _ _ Hk Hw Hmap) in Hsel by done.
      injection Hsel as <-. repeat split; try done; simpl; by rewrite walk_cons, Hk. }
    destruct w as [| | | | |m1]; try (apply Hhere; by intros [? ?]).
    rewrite (selectValue_descend _ _ _ _ Hk) in Hsel by done.
    destruct (IH _ Hsel) as [[? _]|(before & key0 & after & v & Hpath & Hafter & Hwalk & Hrest)];
      [done|].
    exists (key :: before), key0, after, v.
    split; [by rewrite Hpath|]. split; [done|]. split; [|done].
    simpl. by rewrite (walk_cons_map _ _ _ _ Hk).
Qed.

(** X1.  Whatever [selectValue] returns is one of two shapes: the nil value
    with "value not found", or a value that is not nil with no error. *)
Theorem selectValue_answer_shape (m : gmap string value) (path : list string)
    (v : value) (err : option error) :
  selectValue m path = Returns (v, err) ->
  (v = VNil /\ err = Some valueNotFoundError) \/ (v <> VNil /\ err = None).
Proof.
  intros Hsel. destruct err as [e|].
  - left. destruct (selectValue_error _ _ _ _ Hsel) as [-> ->]. done.
  - right. by destruct (selectValue_found_walk _ _ _ Hsel) as (_ & _ & ?).
Qed.

Lemma selectValue_answer_shape_witness :
  (VString "abc" = VNil /\ @None error = Some valueNotFoundError) \/
  (VString "abc" <> VNil /\ @None error = None).
Proof.
  apply (selectValue_answer_shape (swarmDocument (VString "abc")) ["Swarm"; "Cluster"; "ID"]).
  by vm_compute.
Defined.

(** X2.  [selectValue] panics with an index out of range exactly on the empty
    path, and with an interface conversion exactly when the walk meets, before
    the last key, a value that is neither nil nor a mapping; the conversion
    that fails is always the one to a mapping, on that value. *)
Theorem selectValue_panics (m : gmap string value) (path : list string) :
  (selectValue m path = Panics IndexOutOfRange <-> path = []) /\
  (forall v wanted,
     selectValue m path = Panics (InterfaceConversion v wanted) <->
     wanted = AssertMap /\ v <> VNil /\ ~ isMap v /\
     exists before key after,
       path = before ++ key :: after /\ after <> [] /\
       walk m (before ++ [key]) = Some v).
Proof.
  split.
  - split; [|by intros ->].
    intros Hsel. apply selectValue_panic_inv in Hsel as [[? _]|(?&?&?&?&_&_&_&_&_&?)]; done.
  - intros v wanted. split.
    + intros Hsel.
      apply selectValue_panic_inv in Hsel
        as [[_ ?]|(before & key & after & v' & Hpath & Hafter & Hwalk & Hnil & Hmap & Hp)];
        [done|].
      injection Hp as -> ->. repeat split; try done. by exists before, key, after.
    + intros (-> & Hnil & Hmap & before & key & after & -> & Hafter & Hwalk).
      by apply selectValue_shape.
Qed.

(** X3.  [selectValue] returns a value without error exactly when the path is
    not empty and the manual walk ends on that value, which is not nil; no
    condition on the document is needed. *)
Theorem selectValue_found_iff (m : gmap string value) (path : list string) (v : value) :
  selectValue m path = Returns (v, None) <->
  path <> [] /\ walk m path = Some v /\ v <> VNil.
Proof.
  split.
  - apply selectValue_found_walk.
  - intros (Hpath & Hwalk & Hv). by apply walk_selectValue.
Qed.

(** X4.  Selection composes along a path: if selecting [before] returns a
    mapping, selecting [before ++ rest] is selecting [rest] in that mapping. *)
Theorem selectValue_compose (m m' : gmap string value) (before rest : list string) :
  selectValue m before = Returns (VMap m', None) -> rest <> [] ->
  selectValue m (before ++ rest) = selectValue m' rest.
Proof.
  intros Hsel Hrest.
  destruct (selectValue_found_walk _ _ _ Hsel) as (_ & Hwalk & _).
  by apply selectValue_through.
Qed.

Lemma selectValue_compose_witness :
  selectValue (swarmDocument (VString "abc")) (["Swarm"; "Cluster"] ++ ["ID"])
  = selectValue {["ID" := VString "abc"]} ["ID"].
Proof.
  apply selectValue_compose; [by vm_compute|done].
Defined.

(** X5.  A key that is absent where the walk arrives makes [selectValue]
    answer "value not found" whatever follows it in the path: what comes after
    an absent key is never looked at, not even to check shapes. *)
Theorem selectValue_absent_key (m m' : gmap string value) (before after : list string)
    (key : string) :
  walk m before = Some (VMap m') -> m' !! key = None ->
  selectValue m (before ++ key :: after) = Returns (VNil, Some valueNotFoundError).
Proof.
  intros Hwalk Hnone.
  rewrite (selectValue_through _ _ _ _ Hwalk) by done.
  by apply selectValue_absent.
Qed.

Lemma selectValue_absent_key_witness :
  selectValue {["Swarm" := VMap ∅]} (["Swarm"] ++ "Cluster" :: ["ID"])
  = Returns (VNil, Some valueNotFoundError).
Proof.
  apply (selectValue_absent_key _ ∅); by vm_compute.
Defined.

(** X6.  [selectValue] reads the document only under the first key of the
    path: binding or removing any other top-level key leaves the answer as it
    was. *)
Theorem selectValue_other_keys (m : gmap string value) (key other : string)
    (rest : list string) (v : value) :
  other <> key ->
  selectValue (<[other := v]> m) (key :: rest) = selectValue m (key :: rest) /\
  selectValue (delete other m) (key :: rest) = selectValue m (key :: rest).
Proof.
  intros Hne. simpl. by rewrite lookup_insert_ne, lookup_delete_ne.
Qed.

Lemma selectValue_other_keys_witness :
  selectValue (<["Name" := VString "node1"]> (swarmDocument (VString "abc")))
    ("Swarm" :: ["Cluster"; "ID"])
  = selectValue (swarmDocument (VString "abc")) ("Swarm" :: ["Cluster"; "ID"]) /\
  selectValue (delete "Name" (swarmDocument (VString "abc"))) ("Swarm" :: ["Cluster"; "ID"])
  = selectValue (swarmDocument (VString "abc")) ("Swarm" :: ["Cluster"; "ID"]).
Proof. by apply selectValue_other_keys. Defined.

(** X7.  Binding then selecting: a value that is not nil, bound to a key, is
    what selecting that key returns; a mapping bound to a key is where a longer
    path continues; and a key that was removed is answered "value not found". *)
Theorem selectValue_insert (m : gmap string value) (key : string) (v : value) :
  v <> VNil ->
  selectValue (<[key := v]> m) [key] = Returns (v, None) /\
  (forall m' rest, rest <> [] ->
     selectValue (<[key := VMap m']> m) (key :: rest) = selectValue m' rest) /\
  (forall rest, selectValue (delete key m) (key :: rest)
                = Returns (VNil, Some valueNotFoundError)).
Proof.
  intros Hv. split; [|split].
  - apply selectValue_last; [apply lookup_insert_eq|done].
  - intros m' rest Hrest. apply selectValue_descend; [apply lookup_insert_eq|done].
  - intros rest. apply selectValue_absent, lookup_delete_eq.
Qed.

Lemma selectValue_insert_witness :
  selectValue (<["ID" := VString "abc"]> ∅) ["ID"] = Returns (VString "abc", None).
Proof. by apply selectValue_insert. Defined.

(** ** The swarm cluster resolver, end to end *)

(** X8.  Once the docker-info document is fetched, [GetEndpointSwarmClusterID]
    returns an identifier without error exactly when the document holds that
    string at Swarm / Cluster / ID. *)
Theorem GetEndpointSwarmClusterID_found_iff
    (GetClient : PortainerClient * option error) (client : PortainerClient)
    (endpointID : Z) (doc : gmap string value) (id : string) :
  GetClient = (client, None) ->
  EndpointDockerInfo client endpointID = (doc, None) ->
  GetEndpointSwarmClusterID GetClient endpointID = Returns (id, None) <->
  walk doc ["Swarm"; "Cluster"; "ID"] = Some (VString id).
Proof.
  intros Hclient Hinfo.
  rewrite (GetEndpointSwarmClusterID_fetched _ _ _ _ Hclient Hinfo).
  split.
  - destruct (selectValue doc ["Swarm"; "Cluster"; "ID"]) as [[v [e|]]|p] eqn:Hsel;
      simpl; [by case_decide| |done].
    destruct (selectValue_found_walk _ _ _ Hsel) as (_ & Hwalk & _).
    destruct v; try done. by intros [= <-].
  - intros Hwalk.
    rewrite (walk_selectValue ["Swarm"; "Cluster"; "ID"] doc (VString id)); done.
Qed.

Lemma GetEndpointSwarmClusterID_found_iff_witness :
  GetEndpointSwarmClusterID (sampleClient (swarmDocument (VString "abc")) 0, None) 1
  = Returns ("abc", None) <->
  walk (swarmDocument (VString "abc")) ["Swarm"; "Cluster"; "ID"] = Some (VString "abc").
Proof.
  by apply (GetEndpointSwarmClusterID_found_iff _
              (sampleClient (swarmDocument (VString "abc")) 0)).
Defined.

(** X9.  Whatever the client does, an error returned by
    [GetEndpointSwarmClusterID] comes with the empty identifier and is the
    error of [GetClient], the error of [EndpointDockerInfo], or "stack cluster
    not found": the raw "value not found" of the selector never leaves the
    function. *)
Theorem GetEndpointSwarmClusterID_errors
    (GetClient : PortainerClient * option error) (endpointID : Z)
    (id : string) (e : error) :
  GetEndpointSwarmClusterID GetClient endpointID = Returns (id, Some e) ->
  id = "" /\
  (GetClient.2 = Some e \/
   (GetClient.2 = None /\ (EndpointDockerInfo GetClient.1 endpointID).2 = Some e) \/
   (GetClient.2 = None /\ (EndpointDockerInfo GetClient.1 endpointID).2 = None /\
    e = ErrStackClusterNotFound)).
Proof.
  intros Hcluster. split; [by eapply GetEndpointSwarmClusterID_error_id|].
  destruct GetClient as [portainerClient [e1|]]; simpl.
  - left. change (Returns ("", Some e1) = Returns (id, Some e)) in Hcluster.
    by injection Hcluster as _ <-.
  - right.
    destruct (EndpointDockerInfo portainerClient endpointID) as [result [e2|]] eqn:Hinfo;
      simpl.
    + left. split; [done|].
      assert (Hfail : GetEndpointSwarmClusterID (portainerClient, None) endpointID
                      = Returns ("", Some e2)).
      { unfold GetEndpointSwarmClusterID. by rewrite Hinfo. }
      rewrite Hfail in Hcluster. by injection Hcluster as _ <-.
    + right. split; [done|]. split; [done|].
      rewrite (GetEndpointSwarmClusterID_fetched _ portainerClient _ result eq_refl Hinfo)
        in Hcluster.
      destruct (selectValue result ["Swarm"; "Cluster"; "ID"]) as [[v [e3|]]|p] eqn:Hsel;
        simpl in Hcluster; [| |done].
      * destruct (selectValue_error _ _ _ _ Hsel) as [_ ->].
        rewrite decide_True in Hcluster by done. by injection Hcluster as _ <-.
      * by destruct v.
Qed.

Lemma GetEndpointSwarmClusterID_errors_witness :
  "" = "" /\
  ((sampleClient ∅ 0, @None error).2 = Some ErrStackClusterNotFound \/
   ((sampleClient ∅ 0, @None error).2 = None /\
    (EndpointDockerInfo (sampleClient ∅ 0, @None error).1 1).2
    = Some ErrStackClusterNotFound) \/
   ((sampleClient ∅ 0, @None error).2 = None /\
    (EndpointDockerInfo (sampleClient ∅ 0, @None error).1 1).2 = None /\
    ErrStackClusterNotFound = ErrStackClusterNotFound)).
Proof.
  apply (GetEndpointSwarmClusterID_errors (sampleClient ∅ 0, None) 1 "").
  by vm_compute.
Defined.

(** ** Failures of the collaborators *)

(** X10.  When [GetClient] fails, every function of the package hands back
    that error with the zero value, whatever the client would have answered. *)
Theorem GetClient_failure (client : PortainerClient) (e : error)
    (name swarmID resourceID resourceControlType : string) (endpointID : Z) :
  GetDefaultEndpoint (client, Some e) = (Endpoint.zero, Some e) /\
  GetEndpointByName (client, Some e) name = (Endpoint.zero, Some e) /\
  GetEndpointGroupByName (client, Some e) name = (EndpointGroup.zero, Some e) /\
  GetStackByName (client, Some e) name swarmID endpointID = (Stack.zero, Some e) /\
  GetUserByName (client, Some e) name = (User.zero, Some e) /\
  GetEndpointSwarmClusterID (client, Some e) endpointID = Returns ("", Some e) /\
  GetDockerResourcePortainerAccessControl (client, Some e) endpointID resourceID
    resourceControlType = (ResourceControl.zero, Some e) /\
  GetStackPortainerAccessControl (client, Some e) endpointID name
  = Returns (ResourceControl.zero, Some e).
Proof.
  repeat split.
  rewrite GetStackPortainerAccessControl_cluster.
  change (GetEndpointSwarmClusterID (client, Some e) endpointID) with
    (@Returns (string * option error) ("", Some e)).
  simpl. by case_decide.
Qed.

(** X11.  When the client is obtained and its call fails, the resolvers that
    test the error hand it back as it is, with the zero value: the endpoint,
    endpoint group and stack resolvers, the default endpoint resolver and the
    swarm cluster resolver. *)
Theorem client_errors_propagate
    (GetClient : PortainerClient * option error) (client : PortainerClient) (e : error) :
  GetClient = (client, None) ->
  (forall endpoints, EndpointList client = (endpoints, Some e) ->
     GetDefaultEndpoint GetClient = (Endpoint.zero, Some e) /\
     forall name, GetEndpointByName GetClient name = (Endpoint.zero, Some e)) /\
  (forall endpointGroups name, EndpointGroupList client = (endpointGroups, Some e) ->
     GetEndpointGroupByName GetClient name = (EndpointGroup.zero, Some e)) /\
  (forall stacks name swarmID endpointID,
     StackList client {| Filter := {| SwarmID := swarmID; EndpointID := endpointID |} |}
     = (stacks, Some e) ->
     GetStackByName GetClient name swarmID endpointID = (Stack.zero, Some e)) /\
  (forall doc endpointID, EndpointDockerInfo client endpointID = (doc, Some e) ->
     GetEndpointSwarmClusterID GetClient endpointID = Returns ("", Some e)).
Proof.
  intros Hclient. repeat apply conj.
  - intros endpoints Hlist. unfold GetDefaultEndpoint, GetEndpointByName.
    by rewrite Hclient, Hlist.
  - intros groups name Hlist. unfold GetEndpointGroupByName. by rewrite Hclient, Hlist.
  - intros stacks name swarmID endpointID Hlist. unfold GetStackByName.
    by rewrite Hclient, Hlist.
  - intros doc endpointID Hinfo. unfold GetEndpointSwarmClusterID.
    by rewrite Hclient, Hinfo.
Qed.

Lemma client_errors_propagate_witness :
  GetEndpointSwarmClusterID (unreachableInfoClient, None) 1
  = Returns ("", Some (ForeignError "context deadline exceeded")).
Proof.
  destruct (client_errors_propagate (unreachableInfoClient, None) unreachableInfoClient
              (ForeignError "context deadline exceeded") eq_refl) as (_ & _ & _ & Hinfo).
  by apply (Hinfo ∅ 1%Z).
Defined.

(** X12.  A failed decoding call ends either access-control function with the
    call's error and the zero access control, whatever the call had already
    written into the target: an identifier decoded before the failure is not
    handed out. *)
Theorem decode_errors_propagate
    (GetClient : PortainerClient * option error) (client : PortainerClient) (e : error) :
  GetClient = (client, None) ->
  (forall endpointID resourceID resourceControlType pddr,
     DoJSONWithToken_DockerResource client
       ("endpoints/" +:+ pretty endpointID +:+ "/docker/" +:+ resourceControlType
        +:+ "s/" +:+ resourceID) MethodGet pddr_zero = (pddr, Some e) ->
     GetDockerResourcePortainerAccessControl GetClient endpointID resourceID
       resourceControlType
     = (ResourceControl.zero, Some e)) /\
  (forall endpointID stackName swarmID stack ds,
     GetEndpointSwarmClusterID GetClient endpointID = Returns (swarmID, None) \/
     GetEndpointSwarmClusterID GetClient endpointID
     = Returns (swarmID, Some ErrStackClusterNotFound) ->
     GetStackByName GetClient stackName swarmID endpointID = (stack, None) ->
     DoJSONWithToken_Stack client ("stacks/" +:+ pretty (Stack.ID stack)) MethodGet ds_zero
     = (ds, Some e) ->
     GetStackPortainerAccessControl GetClient endpointID stackName
     = Returns (ResourceControl.zero, Some e)).
Proof.
  intros Hclient. split.
  - intros endpointID resourceID resourceControlType pddr Hdecode.
    unfold GetDockerResourcePortainerAccessControl. by rewrite Hclient, Hdecode.
  - intros endpointID stackName swarmID stack ds Hcluster Hstack Hdecode.
    rewrite GetStackPortainerAccessControl_cluster.
    assert (Hrest : stackAccessControl GetClient stackName swarmID endpointID
                    = (ResourceControl.zero, Some e)).
    { unfold stackAccessControl. by rewrite Hstack, Hclient, Hdecode. }
    destruct Hcluster as [Hcluster|Hcluster].
    + by rewrite Hcluster, Hrest.
    + pose proof (GetEndpointSwarmClusterID_error_id _ _ _ _ Hcluster) as ->.
      by rewrite Hcluster, decide_True, Hrest.
Qed.

Lemma decode_errors_propagate_witness :
  GetDockerResourcePortainerAccessControl (unreachableInfoClient, None) 1 "web" "config"
  = (ResourceControl.zero, Some (ForeignError "unexpected EOF")).
Proof.
  destruct (decode_errors_propagate (unreachableInfoClient, None) unreachableInfoClient
              (ForeignError "unexpected EOF") eq_refl) as [Hdocker _].
  by apply (Hdocker 1%Z "web" "config"
              {| Portainer := {| ResourceControl := sampleAccessControl 42 |} |}).
Defined.

(** X13.  [GetUserByName] after a failed [UserList]: if the list that came
    with the error has a user of that name, the first such user is returned
    together with the error; if it has none, the error is replaced by "user not
    found". *)
Theorem GetUserByName_after_failed_list
    (GetClient : PortainerClient * option error) (client : PortainerClient)
    (users : list User.t) (e : error) (name : string) :
  GetClient = (client, None) -> UserList client = (users, Some e) ->
  (forall user, firstMatching (fun u => User.Username u = name) users user ->
     GetUserByName GetClient name = (user, Some e)) /\
  ((forall u, u ∈ users -> User.Username u <> name) ->
     GetUserByName GetClient name = (User.zero, Some ErrUserNotFound)).
Proof.
  intros Hclient Hlist. unfold GetUserByName. rewrite Hclient, Hlist.
  destruct (rangeFirst_resolves
              (fun listUser => String.eqb (User.Username listUser) name)
              (fun u => User.Username u = name) User.zero ErrUserNotFound users)
    as (Hfound & Hnone & _); [intros y; apply String.eqb_eq|].
  split.
  - intros user Hfirst. apply Hfound in Hfirst.
    destruct (rangeFirst _ users); [by injection Hfirst as ->|done].
  - intros Hno. apply Hnone in Hno. by destruct (rangeFirst _ users).
Qed.

Lemma GetUserByName_after_failed_list_witness :
  GetUserByName (unreachableInfoClient, None) "bob"
  = (User.mk 3 "bob", Some (ForeignError "unexpected EOF")).
Proof.
  destruct (GetUserByName_after_failed_list (unreachableInfoClient, None)
              unreachableInfoClient [User.mk 2 "alice"; User.mk 3 "bob"]
              (ForeignError "unexpected EOF") "bob" eq_refl eq_refl) as [Hfound _].
  apply Hfound. exists [User.mk 2 "alice"], []. split; [done|]. split; [done|].
  intros y Hy. apply list_elem_of_singleton in Hy as ->. done.
Defined.

(** ** Lookups in a collection *)

Lemma rangeFirst_app {A} (p : A -> bool) (xs ys : list A) :
  rangeFirst p (xs ++ ys)
  = match rangeFirst p xs with
    | Some x => Some x
    | None => rangeFirst p ys
    end.
Proof.
  induction xs as [|x xs IH]; [done|]. simpl. by destruct (p x).
Qed.

(** X14.  Name collisions resolve to the earlier element: extending a
    collection after an element that matched does not change the answer of the
    list lookups, and a collection in which nothing matched is skipped in front
    of another one. *)
Theorem list_lookup_append (xs ys : list Endpoint.t) (name : string) (id : Z) :
  (forall e, GetEndpointFromListByName xs name = (e, None) ->
     GetEndpointFromListByName (xs ++ ys) name = (e, None)) /\
  (GetEndpointFromListByName xs name = (Endpoint.zero, Some ErrEndpointNotFound) ->
     GetEndpointFromListByName (xs ++ ys) name = GetEndpointFromListByName ys name) /\
  (forall e, GetEndpointFromListByID xs id = (e, None) ->
     GetEndpointFromListByID (xs ++ ys) id = (e, None)) /\
  (GetEndpointFromListByID xs id = (Endpoint.zero, Some ErrEndpointNotFound) ->
     GetEndpointFromListByID (xs ++ ys) id = GetEndpointFromListByID ys id).
Proof.
  unfold GetEndpointFromListByName, GetEndpointFromListByID.
  rewrite !rangeFirst_app.
  repeat apply conj.
  - intros e. by destruct (rangeFirst _ xs).
  - by destruct (rangeFirst _ xs).
  - intros e. by destruct (rangeFirst _ xs).
  - by destruct (rangeFirst _ xs).
Qed.

Lemma list_lookup_append_witness :
  GetEndpointFromListByName (sampleEndpoints ++ [Endpoint.mk 9 "prod" 2]) "prod"
  = (Endpoint.mk 1 "prod" 1, None).
Proof.
  by apply (list_lookup_append sampleEndpoints [Endpoint.mk 9 "prod" 2] "prod" 0).
Defined.

(** X15.  Fetching and then searching is searching the fetched list: once the
    endpoint collection is fetched, [GetEndpointByName] answers what
    [GetEndpointFromListByName] answers on that collection. *)
Theorem GetEndpointByName_from_list
    (GetClient : PortainerClient * option error) (client : PortainerClient)
    (endpoints : list Endpoint.t) (name : string) :
  GetClient = (client, None) -> EndpointList client = (endpoints, None) ->
  GetEndpointByName GetClient name = GetEndpointFromListByName endpoints name.
Proof.
  intros Hclient Hlist. unfold GetEndpointByName, GetEndpointFromListByName.
  by rewrite Hclient, Hlist.
Qed.

Lemma GetEndpointByName_from_list_witness :
  GetEndpointByName (sampleClient ∅ 0, None) "staging"
  = GetEndpointFromListByName sampleEndpoints "staging".
Proof. by apply (GetEndpointByName_from_list _ (sampleClient ∅ 0)). Defined.

Lemma rangeFirst_elem {A} (p : A -> bool) (xs : list A) (x : A) :
  rangeFirst p xs = Some x -> p x = true /\ x ∈ xs.
Proof.
  intros (before & after & -> & Hx & _)%rangeFirst_Some. split; [done|].
  apply elem_of_app. right. by left.
Qed.

(** X17.  Whatever the client does, an entity returned without error bears
    the name (or identifier) that was asked for and is an element of the
    collection that was searched. *)
Theorem resolved_entity_matches (GetClient : PortainerClient * option error)
    (name : string) :
  (forall e, GetEndpointByName GetClient name = (e, None) ->
     Endpoint.Name e = name /\ e ∈ (EndpointList GetClient.1).1) /\
  (forall g, GetEndpointGroupByName GetClient name = (g, None) ->
     EndpointGroup.Name g = name /\ g ∈ (EndpointGroupList GetClient.1).1) /\
  (forall swarmID endpointID s,
     GetStackByName GetClient name swarmID endpointID = (s, None) ->
     Stack.Name s = name /\
     s ∈ (StackList GetClient.1
            {| Filter := {| SwarmID := swarmID; EndpointID := endpointID |} |}).1) /\
  (forall u, GetUserByName GetClient name = (u, None) ->
     User.Username u = name /\ u ∈ (UserList GetClient.1).1) /\
  (forall endpoints e, GetEndpointFromListByName endpoints name = (e, None) ->
     Endpoint.Name e = name /\ e ∈ endpoints) /\
  (forall endpoints id e, GetEndpointFromListByID endpoints id = (e, None) ->
     Endpoint.ID e = id /\ e ∈ endpoints).
Proof.
  unfold GetEndpointByName, GetEndpointGroupByName, GetStackByName, GetUserByName,
    GetEndpointFromListByName, GetEndpointFromListByID.
  destruct GetClient as [portainerClient [e1|]]; simpl.
  { repeat apply conj; try done.
    - intros endpoints e.
      destruct (rangeFirst _ endpoints) as [x|] eqn:Hfind; [|done].
      intros [= <-]. apply rangeFirst_elem in Hfind as [Hx ?].
      by apply String.eqb_eq in Hx.
    - intros endpoints id e.
      destruct (rangeFirst _ endpoints) as [x|] eqn:Hfind; [|done].
      intros [= <-]. apply rangeFirst_elem in Hfind as [Hx ?].
      by apply Z.eqb_eq in Hx. }
  repeat apply conj.
  - intros e. destruct (EndpointList portainerClient) as [xs [e2|]]; [done|]. simpl.
    destruct (rangeFirst _ xs) as [x|] eqn:Hfind; [|done].
    intros [= <-]. apply rangeFirst_elem in Hfind as [Hx ?]. by apply String.eqb_eq in Hx.
  - intros g. destruct (EndpointGroupList portainerClient) as [xs [e2|]]; [done|]. simpl.
    destruct (rangeFirst _ xs) as [x|] eqn:Hfind; [|done].
    intros [= <-]. apply rangeFirst_elem in Hfind as [Hx ?]. by apply String.eqb_eq in Hx.
  - intros swarmID endpointID s.
    destruct (StackList portainerClient _) as [xs [e2|]]; [done|]. simpl.
    destruct (rangeFirst _ xs) as [x|] eqn:Hfind; [|done].
    intros [= <-]. apply rangeFirst_elem in Hfind as [Hx ?]. by apply String.eqb_eq in Hx.
  - intros u. destruct (UserList portainerClient) as [xs err]. simpl.
    destruct (rangeFirst _ xs) as [x|] eqn:Hfind; [|done].
    intros [= <- _]. apply rangeFirst_elem in Hfind as [Hx ?]. by apply String.eqb_eq in Hx.
  - intros endpoints e.
    destruct (rangeFirst _ endpoints) as [x|] eqn:Hfind; [|done].
    intros [= <-]. apply rangeFirst_elem in Hfind as [Hx ?]. by apply String.eqb_eq in Hx.
  - intros endpoints id e.
    destruct (rangeFirst _ endpoints) as [x|] eqn:Hfind; [|done].
    intros [= <-]. apply rangeFirst_elem in Hfind as [Hx ?]. by apply Z.eqb_eq in Hx.
Qed.

Lemma resolved_entity_matches_witness :
  Stack.Name (Stack.mk 5 "web" 1 "abc") = "web" /\
  Stack.mk 5 "web" 1 "abc"
  ∈ (StackList (sampleClient ∅ 0, @None error).1
       {| Filter := {| SwarmID := "abc"; EndpointID := 1 |} |}).1.
Proof.
  destruct (resolved_entity_matches (sampleClient ∅ 0, None) "web") as (_ & _ & Hstack & _).
  by apply (Hstack "abc" 1%Z).
Defined.

Lemma sentinel_inv (decoded resourceControl : ResourceControl.t) (err : option error) :
  sentinel decoded = (resourceControl, err) ->
  (err = None /\ resourceControl = decoded /\ ResourceControl.ID resourceControl <> 0%Z) \/
  (err = Some ErrAccessControlNotFound /\ resourceControl = ResourceControl.zero /\
   ResourceControl.ID decoded = 0%Z).
Proof.
  unfold sentinel. case_decide as Hid; intros [= <- <-]; [by right|by left].
Qed.

Lemma stackAccessControl_inv (GetClient : PortainerClient * option error)
    (stackName swarmID : string) (endpointID : Z)
    (resourceControl : ResourceControl.t) (err : option error) :
  stackAccessControl GetClient stackName swarmID endpointID = (resourceControl, err) ->
  (err = None /\ ResourceControl.ID resourceControl <> 0%Z) \/
  (exists e, err = Some e /\ resourceControl = ResourceControl.zero).
Proof.
  unfold stackAccessControl.
  destruct (GetStackByName GetClient stackName swarmID endpointID) as [stack [e|]];
    [intros [= <- <-]; right; by eexists|].
  destruct GetClient as [portainerClient [e|]]; [intros [= <- <-]; right; by eexists|].
  destruct (DoJSONWithToken_Stack _ _ _ _) as [ds [e|]];
    [intros [= <- <-]; right; by eexists|].
  intros [(-> & _ & ?)|(-> & -> & _)]%sentinel_inv; [by left|right; by eexists].
Qed.

Lemma GetDockerResourcePortainerAccessControl_inv
    (GetClient : PortainerClient * option error) (endpointID : Z)
    (resourceID resourceControlType : string)
    (resourceControl : ResourceControl.t) (err : option error) :
  GetDockerResourcePortainerAccessControl GetClient endpointID resourceID resourceControlType
  = (resourceControl, err) ->
  (err = None /\ ResourceControl.ID resourceControl <> 0%Z) \/
  (exists e, err = Some e /\ resourceControl = ResourceControl.zero).
Proof.
  unfold GetDockerResourcePortainerAccessControl.
  destruct GetClient as [portainerClient [e|]]; [intros [= <- <-]; right; by eexists|].
  destruct (DoJSONWithToken_DockerResource _ _ _ _) as [pddr [e|]];
    [intros [= <- <-]; right; by eexists|].
  destruct (pddr_hasAccessControl pddr) eqn:Hhas; intros [= <- <-].
  - left. split; [done|]. by apply pddr_hasAccessControl_spec.
  - right. by eexists.
Qed.

Lemma GetStackPortainerAccessControl_inv
    (GetClient : PortainerClient * option error) (endpointID : Z) (stackName : string)
    (resourceControl : ResourceControl.t) (err : option error) :
  GetStackPortainerAccessControl GetClient endpointID stackName
  = Returns (resourceControl, err) ->
  (err = None /\ ResourceControl.ID resourceControl <> 0%Z) \/
  (exists e, err = Some e /\ resourceControl = ResourceControl.zero).
Proof.
  rewrite GetStackPortainerAccessControl_cluster.
  destruct (GetEndpointSwarmClusterID GetClient endpointID) as [[id [e|]]|p]; [| |done].
  - case_decide.
    + intros [= Hrest]. by eapply stackAccessControl_inv.
    + intros [= <- <-]. right. by eexists.
  - intros [= Hrest]. by eapply stackAccessControl_inv.
Qed.

(** X18.  No partial results from the resolvers that test their errors:
    whatever the client does, an error from the endpoint, endpoint group and
    stack resolvers, from the two list lookups and from the two access-control
    functions comes with the zero value. *)
Theorem errors_come_with_zero (GetClient : PortainerClient * option error) :
  (forall name e err, GetEndpointByName GetClient name = (e, Some err) ->
     e = Endpoint.zero) /\
  (forall name g err, GetEndpointGroupByName GetClient name = (g, Some err) ->
     g = EndpointGroup.zero) /\
  (forall name swarmID endpointID s err,
     GetStackByName GetClient name swarmID endpointID = (s, Some err) -> s = Stack.zero) /\
  (forall endpoints name e err, GetEndpointFromListByName endpoints name = (e, Some err) ->
     e = Endpoint.zero) /\
  (forall endpoints id e err, GetEndpointFromListByID endpoints id = (e, Some err) ->
     e = Endpoint.zero) /\
  (forall endpointID resourceID resourceControlType resourceControl err,
     GetDockerResourcePortainerAccessControl GetClient endpointID resourceID
       resourceControlType = (resourceControl, Some err) ->
     resourceControl = ResourceControl.zero) /\
  (forall endpointID stackName resourceControl err,
     GetStackPortainerAccessControl GetClient endpointID stackName
     = Returns (resourceControl, Some err) ->
     resourceControl = ResourceControl.zero).
Proof.
  repeat apply conj.
  - intros name e err. unfold GetEndpointByName.
    destruct GetClient as [portainerClient [e1|]]; [by intros [= <- _]|].
    destruct (EndpointList portainerClient) as [xs [e2|]]; [by intros [= <- _]|].
    destruct (rangeFirst _ xs); [done|by intros [= <- _]].
  - intros name g err. unfold GetEndpointGroupByName.
    destruct GetClient as [portainerClient [e1|]]; [by intros [= <- _]|].
    destruct (EndpointGroupList portainerClient) as [xs [e2|]]; [by intros [= <- _]|].
    destruct (rangeFirst _ xs); [done|by intros [= <- _]].
  - intros name swarmID endpointID s err. unfold GetStackByName.
    destruct GetClient as [portainerClient [e1|]]; [by intros [= <- _]|].
    destruct (StackList portainerClient _) as [xs [e2|]]; [by intros [= <- _]|].
    destruct (rangeFirst _ xs); [done|by intros [= <- _]].
  - intros endpoints name e err. unfold GetEndpointFromListByName.
    destruct (rangeFirst _ endpoints); [done|by intros [= <- _]].
  - intros endpoints id e err. unfold GetEndpointFromListByID.
    destruct (rangeFirst _ endpoints); [done|by intros [= <- _]].
  - intros endpointID resourceID resourceControlType resourceControl err Hcall.
    by apply GetDockerResourcePortainerAccessControl_inv in Hcall as [[? _]|(e & _ & ->)].
  - intros endpointID stackName resourceControl err Hcall.
    by apply GetStackPortainerAccessControl_inv in Hcall as [[? _]|(e & _ & ->)].
Qed.

Lemma errors_come_with_zero_witness :
  GetEndpointByName (sampleClient ∅ 0, None) "qa"
  = ((GetEndpointByName (sampleClient ∅ 0, None) "qa").1, Some ErrEndpointNotFound) /\
  (GetEndpointByName (sampleClient ∅ 0, None) "qa").1 = Endpoint.zero.
Proof.
  split; [by vm_compute|].
  destruct (errors_come_with_zero (sampleClient ∅ 0, None)) as (Hendpoint & _).
  by apply (Hendpoint "qa" _ ErrEndpointNotFound).
Defined.

(** X19.  Whatever the client does, an access control returned without error
    has an identifier that is not zero, from the Docker-resource variant and
    from the stack variant alike. *)
Theorem accessControl_never_zero (GetClient : PortainerClient * option error)
    (endpointID : Z) :
  (forall resourceID resourceControlType resourceControl,
     GetDockerResourcePortainerAccessControl GetClient endpointID resourceID
       resourceControlType = (resourceControl, None) ->
     ResourceControl.ID resourceControl <> 0%Z) /\
  (forall stackName resourceControl,
     GetStackPortainerAccessControl GetClient endpointID stackName
     = Returns (resourceControl, None) ->
     ResourceControl.ID resourceControl <> 0%Z).
Proof.
  split.
  - intros resourceID resourceControlType resourceControl Hcall.
    by apply GetDockerResourcePortainerAccessControl_inv in Hcall as [[_ ?]|(e & ? & _)].
  - intros stackName resourceControl Hcall.
    by apply GetStackPortainerAccessControl_inv in Hcall as [[_ ?]|(e & ? & _)].
Qed.

Lemma accessControl_never_zero_witness :
  GetStackPortainerAccessControl (sampleClient ∅ 42, None) 1 "web"
  = Returns (sampleAccessControl 42, None) /\
  ResourceControl.ID (sampleAccessControl 42) <> 0%Z.
Proof.
  split; [by vm_compute|].
  destruct (accessControl_never_zero (sampleClient ∅ 42, None) 1) as [_ Hstack].
  by apply (Hstack "web").
Defined.

(** X20.  In [GetStackPortainerAccessControl], once the cluster resolution
    let the call through, a failure to resolve the stack (a failed listing, or
    "stack not found") ends the call with that error; the decorated stack is
    not asked for. *)
Theorem GetStackPortainerAccessControl_stack_error
    (GetClient : PortainerClient * option error) (endpointID : Z)
    (stackName swarmID : string) (stack : Stack.t) (e : error) :
  GetEndpointSwarmClusterID GetClient endpointID = Returns (swarmID, None) \/
  GetEndpointSwarmClusterID GetClient endpointID
  = Returns (swarmID, Some ErrStackClusterNotFound) ->
  GetStackByName GetClient stackName swarmID endpointID = (stack, Some e) ->
  GetStackPortainerAccessControl GetClient endpointID stackName
  = Returns (ResourceControl.zero, Some e).
Proof.
  intros Hcluster Hstack.
  rewrite GetStackPortainerAccessControl_cluster.
  assert (Hrest : stackAccessControl GetClient stackName swarmID endpointID
                  = (ResourceControl.zero, Some e)).
  { unfold stackAccessControl. by rewrite Hstack. }
  destruct Hcluster as [Hcluster|Hcluster].
  - by rewrite Hcluster, Hrest.
  - pose proof (GetEndpointSwarmClusterID_error_id _ _ _ _ Hcluster) as ->.
    by rewrite Hcluster, decide_True, Hrest.
Qed.

Lemma GetStackPortainerAccessControl_stack_error_witness :
  GetStackPortainerAccessControl (sampleClient (swarmDocument (VString "abc")) 42, None)
    1 "cache"
  = Returns (ResourceControl.zero, Some ErrStackNotFound).
Proof.
  apply (GetStackPortainerAccessControl_stack_error _ 1 "cache" "abc" Stack.zero).
  - left. by vm_compute.
  - by vm_compute.
Defined.

(** ** The renderer on cyclic type graphs *)

Section RendererCycles.

Context `{reflect.RType T}.

Lemma appendFields_Some_inv (line : nat -> option string) indices r out :
  appendFields line indices r = Some out -> forall i, i ∈ indices -> is_Some (line i).
Proof.
  revert r. induction indices as [|i0 later IH]; intros r Hout i Hi.
  - by apply elem_of_nil in Hi.
  - simpl in Hout. destruct (line i0) as [s|] eqn:Hline; [|done].
    apply elem_of_cons in Hi as [->|Hi]; [by rewrite Hline|by eapply IH].
Qed.

(** A rendering that completes within a depth has rendered every type it
    descends into within one level less. *)
Lemma repr_child (depth : nat) (t u : T) (margin beforeMargin r : string) :
  child t u -> repr (S depth) t margin beforeMargin = Some r ->
  exists beforeMargin' r', repr depth u margin beforeMargin' = Some r'.
Proof.
  unfold child. rewrite repr_S. destruct (reflect.kind t); try done.
  - intros ->. destruct (repr depth (reflect.elem t) margin beforeMargin) as [s|] eqn:Hs;
      [by eexists _, _|done].
  - intros ->. destruct (repr depth (reflect.elem t) margin beforeMargin) as [s|] eqn:Hs;
      [by eexists _, _|done].
  - intros (i & Hi & ->).
    destruct (appendFields _ (seq 0 (reflect.numField t)) (Sprintln "{"))
      as [out|] eqn:Hfields; [|done].
    intros _.
    destruct (appendFields_Some_inv _ _ _ _ Hfields i) as [s Hs].
    { apply elem_of_seq. lia. }
    simpl in Hs.
    destruct (repr depth (reflect.Type_ (reflect.field t i)) margin
                (beforeMargin +:+ margin)) as [s'|] eqn:Hs'; [by eexists _, _|done].
Qed.

Lemma repr_descendant (t u : T) :
  tc child t u ->
  forall depth margin beforeMargin r,
    repr depth t margin beforeMargin = Some r ->
    exists depth' beforeMargin' r',
      depth' < depth /\ repr depth' u margin beforeMargin' = Some r'.
Proof.
  induction 1 as [t u Hchild|t v u Hchild _ IH]; intros depth margin beforeMargin r Hr.
  - destruct depth as [|depth]; [done|].
    destruct (repr_child _ _ _ _ _ _ Hchild Hr) as (b' & r' & Hr').
    exists depth, b', r'. split; [lia|done].
  - destruct depth as [|depth]; [done|].
    destruct (repr_child _ _ _ _ _ _ Hchild Hr) as (b' & r' & Hr').
    destruct (IH _ _ _ _ Hr') as (depth' & b'' & r'' & Hlt & Hr'').
    exists depth', b'', r''. split; [lia|done].
Qed.

(** X21.  On a type description that lies on a cycle of the type graph (a
    record with a slice of itself, say) the renderer never completes, whatever
    the depth it is allowed and whatever the indentation strings; neither does
    [GetFormatHelp]. *)
Theorem repr_cyclic_diverges (t : T) :
  cyclic t ->
  (forall depth margin beforeMargin, repr depth t margin beforeMargin = None) /\
  (forall depth, GetFormatHelp depth t = None).
Proof.
  intros Hcycle.
  assert (Hnever : forall depth margin beforeMargin,
            repr depth t margin beforeMargin = None).
  { intros depth. induction (lt_wf depth) as [depth _ IH]. intros margin beforeMargin.
    destruct (repr depth t margin beforeMargin) as [r|] eqn:Hr; [|done].
    destruct (repr_descendant t t Hcycle _ _ _ _ Hr) as (depth' & b' & r' & Hlt & Hr').
    by rewrite (IH depth' Hlt) in Hr'. }
  split; [done|].
  intros depth. unfold GetFormatHelp. by rewrite Hnever.
Qed.

End RendererCycles.

Lemma tyNode_cyclic : cyclic tyNode.
Proof.
  apply tc_l with tyNodes.
  - exists 1. split; [simpl; lia|done].
  - apply tc_once. done.
Qed.

Lemma repr_cyclic_diverges_witness :
  repr 50 tyNode "  " "  " = None /\ GetFormatHelp 50 tyNode = None.
Proof.
  destruct (repr_cyclic_diverges tyNode tyNode_cyclic) as [Hrepr Hhelp].
  split; [apply Hrepr|apply Hhelp].
Defined.
